(** * rednote-Maker: the reflow engine, the paginator and page numbering

    A shallow embedding of the text-to-slide layout code of
    [src/services/geminiService.ts], the paragraph ingestion of
    [src/server.js] and the renumbering helper of [src/App.tsx].

    JavaScript strings are sequences of UTF-16 code units: [length],
    [slice], [startsWith] and a regular expression without the [u] flag all
    count code units.  A string is therefore a [list N] of code units.
    Line arithmetic is done in [Z], because [remainingLines] can be
    negative. *)

From Stdlib Require Import ZArith Lia List Bool String Ascii DecimalN.
From stdpp Require Import base list.
Import ListNotations.

Local Open Scope Z_scope.

(** ** JavaScript string primitives *)

Abbreviation jsstring := (list N).

(** Code units of the characters the sources test for. *)
Definition HASH : N := 35.          (* '#' *)
Definition SPACE : N := 32.         (* ' ' *)
Definition NEWLINE : N := 10.       (* '\n' *)

(** The character class [。！？.!?] of [splitIntoSentences]. *)
Definition isBoundary (c : N) : bool :=
  (c =? 12290)%N || (c =? 65281)%N || (c =? 65311)%N ||
  (c =? 46)%N || (c =? 33)%N || (c =? 63)%N.

(** WhiteSpace and LineTerminator code units, the ones [String.prototype.trim]
    strips. *)
Definition isWhiteSpace (c : N) : bool :=
  ((9 <=? c) && (c <=? 13))%N || (c =? 32)%N || (c =? 160)%N ||
  (c =? 5760)%N || ((8192 <=? c) && (c <=? 8202))%N ||
  (c =? 8232)%N || (c =? 8233)%N || (c =? 8239)%N || (c =? 8287)%N ||
  (c =? 12288)%N || (c =? 65279)%N.

(** [s.startsWith(p)] *)
Fixpoint startsWith (p s : jsstring) : bool :=
  match p, s with
  | [], _ => true
  | _ :: _, [] => false
  | a :: p', b :: s' => (a =? b)%N && startsWith p' s'
  end.

(** Longest prefix whose characters satisfy [f], and the rest. *)
Fixpoint span (f : N -> bool) (s : jsstring) : jsstring * jsstring :=
  match s with
  | [] => ([], [])
  | c :: s' =>
      if f c then let '(a, b) := span f s' in (c :: a, b) else ([], s)
  end.

Fixpoint dropWhile (f : N -> bool) (s : jsstring) : jsstring :=
  match s with
  | [] => []
  | c :: s' => if f c then dropWhile f s' else s
  end.

(** [s.trim()] *)
Definition trim (s : jsstring) : jsstring :=
  rev (dropWhile isWhiteSpace (rev (dropWhile isWhiteSpace s))).

(** The relative index of [slice]: a negative index counts from the end,
    and every index is clamped to [0 .. len]. *)
Definition relIndex (len k : Z) : Z :=
  if k <? 0 then Z.max (len + k) 0 else Z.min k len.

(** [s.slice(from, to)] *)
Definition slice (s : jsstring) (from to : Z) : jsstring :=
  let len := Z.of_nat (length s) in
  let a := relIndex len from in
  let b := relIndex len to in
  take (Z.to_nat (b - a)) (drop (Z.to_nat a) s).

(** [s.slice(from)] *)
Definition sliceFrom (s : jsstring) (from : Z) : jsstring :=
  slice s from (Z.of_nat (length s)).

(** [a || b] on strings, where [a] may be [undefined]: the empty string
    and [undefined] are both falsy. *)
Definition orString (a : option jsstring) (b : jsstring) : jsstring :=
  match a with
  | Some (c :: s) => c :: s
  | _ => b
  end.

(** ** The reflow engine ([geminiService.ts], lines 26-66) *)

Definition MAX_LINES_PER_PAGE : Z := 19.
Definition CHARS_PER_LINE : Z := 22.
Definition MAX_CHARS_PER_PARA : nat := 69.

(** One attempt of the regular expression
    [/[^。！？.!?]+[。！？.!?]+|[^。！？.!?]+$/] at the start of [s]: the
    match and what follows it.  Both alternatives begin with the longest run
    of non-boundary characters; the first needs at least one boundary
    character after it and takes them all, the second needs the end of the
    input.  Backtracking into the run cannot help either alternative, since
    the character after a shorter run is a non-boundary one. *)
Definition sentenceAt (s : jsstring) : option (jsstring * jsstring) :=
  let '(run, rest) := span (fun c => negb (isBoundary c)) s in
  match run with
  | [] => None
  | _ :: _ =>
      let '(term, rest') := span isBoundary rest in
      match term, rest with
      | _ :: _, _ => Some (run ++ term, rest')
      | [], [] => Some (run, [])
      | [], _ :: _ => None
      end
  end.

(** [text.match(re)] with the [g] flag: every match, left to right; where
    the expression does not match, the search moves one code unit on.  Each
    round consumes at least one code unit, so [length text] rounds are
    enough. *)
Fixpoint matchAll (fuel : nat) (s : jsstring) : list jsstring :=
  match fuel with
  | O => []
  | S n =>
      match s with
      | [] => []
      | _ :: s' =>
          match sentenceAt s with
          | Some (m, rest) => m :: matchAll n rest
          | None => matchAll n s'
          end
      end
  end.

(** [text.match(...) || [text]]: [match] gives [null] when nothing matches. *)
Definition splitIntoSentences (text : jsstring) : list jsstring :=
  match matchAll (length text) text with
  | [] => [text]
  | m :: ms => m :: ms
  end.

(** The [while] loop of [reflowContent] at buffer index [i]: the state is
    [current] and [buffer].  [lastSentence || ''] is [orString].  The write
    [buffer[i + 1] = ...] happens when [i + 1 < buffer.length], that is when
    the lookup succeeds; otherwise the sentence is pushed. *)
Fixpoint reflowWhile (fuel i : nat) (current : jsstring)
    (buffer : list jsstring) : option (jsstring * list jsstring) :=
  if (length current <=? MAX_CHARS_PER_PARA)%nat then Some (current, buffer)
  else
    let sentences := splitIntoSentences current in
    if (length sentences <=? 1)%nat then Some (current, buffer)
    else
      match fuel with
      | O => None
      | S n =>
          let lastSentence := last sentences in
          let remainder := concat (removelast sentences) in
          let buffer' :=
            match buffer !! (i + 1)%nat with
            | Some next =>
                <[(i + 1)%nat := orString lastSentence [] ++ next]> buffer
            | None => buffer ++ [orString lastSentence []]
            end in
          reflowWhile n i remainder buffer'
      end.

(** The [for] loop of [reflowContent]: [i], the growing [buffer] and
    [refined]. *)
Fixpoint reflowFor (fuel i : nat) (buffer refined : list jsstring)
    : option (list jsstring) :=
  match buffer !! i with
  | None => Some refined
  | Some current =>
      match fuel with
      | O => None
      | S n =>
          if startsWith [HASH] current
          then reflowFor n (i + 1)%nat buffer (refined ++ [current])
          else
            match reflowWhile (length current) i current buffer with
            | None => None
            | Some (current', buffer') =>
                reflowFor n (i + 1)%nat buffer' (refined ++ [current'])
            end
      end
  end.

(** Rounds that suffice for the outer loop: every round finishes one slot,
    and a slot is only added when a non-empty slot was finished. *)
Definition reflowFuel (content : list jsstring) : nat :=
  (length content + length (concat content))%nat.

Definition reflowContent (content : list jsstring) : list jsstring :=
  default [] (reflowFor (reflowFuel content) 0 content []).

(** ** The paginator ([geminiService.ts], lines 68-135) *)

(** [Math.ceil(a / b)] for a length [a] and [b = 22]: the floating-point
    quotient of two such integers is exact enough for [ceil] to be the
    integer ceiling. *)
Definition ceilDiv (a b : Z) : Z := (a + b - 1) / b.

Definition getLineCost (text : jsstring) : Z :=
  if startsWith [HASH; HASH; SPACE] text then 3
  else if startsWith [HASH; HASH; HASH; SPACE] text then 2
  else
    match trim text with
    | [] => 0
    | _ :: _ => ceilDiv (Z.of_nat (length text)) CHARS_PER_LINE + 1
    end.

(** [SlideData] of the type declarations; an optional field is an [option]. *)
Inductive SlideType := ty_cover | ty_content | ty_promo.
Inductive CoverStyle := classic | immersive | glass | frame.

Record SlideData := mkSlide {
  id : option jsstring;
  type : SlideType;
  title : jsstring;
  content : list jsstring;
  subtitle : option jsstring;
  category : option jsstring;
  tags : option (list jsstring);
  pageNumber : option Z;
  totalPages : option Z;
  backgroundImage : option jsstring;
  titleFontSize : option Z;
  coverStyle : option CoverStyle
}.

Definition isCover (s : SlideData) : bool :=
  match type s with ty_cover => true | _ => false end.

Definition isContent (s : SlideData) : bool :=
  match type s with ty_content => true | _ => false end.

(** [{ ...slide, content: c }] *)
Definition withContent (slide : SlideData) (c : list jsstring) : SlideData :=
  mkSlide (id slide) (type slide) (title slide) c (subtitle slide)
    (category slide) (tags slide) (pageNumber slide) (totalPages slide)
    (backgroundImage slide) (titleFontSize slide) (coverStyle slide).

(** The variables of the paginator loop. *)
Record PagState := mkPag {
  paginatedSlides : list SlideData;
  currentChunk : list jsstring;
  currentLinesUsed : Z
}.

(** [paginatedSlides.push({ ...slide, content: currentChunk })] *)
Definition flush (slide : SlideData) (st : PagState) : list SlideData :=
  paginatedSlides st ++ [withContent slide (currentChunk st)].

(** The body of the loop over [reflowedContent]. *)
Definition paginateStep (slide : SlideData) (st : PagState)
    (paragraph : jsstring) : PagState :=
  let cost := getLineCost paragraph in
  if currentLinesUsed st + cost <=? MAX_LINES_PER_PAGE then
    mkPag (paginatedSlides st) (currentChunk st ++ [paragraph])
      (currentLinesUsed st + cost)
  else
    let remainingLines := MAX_LINES_PER_PAGE - currentLinesUsed st in
    if startsWith [HASH] paragraph then
      mkPag
        (if (0 <? length (currentChunk st))%nat then flush slide st
         else paginatedSlides st)
        [paragraph] cost
    else if remainingLines <=? 1 then
      mkPag (flush slide st) [paragraph] cost
    else
      let availableTextLines := remainingLines - 1 in
      let maxChars := availableTextLines * CHARS_PER_LINE in
      let part1 := slice paragraph 0 maxChars in
      let part2 := sliceFrom paragraph maxChars in
      mkPag
        (flush slide
           (mkPag (paginatedSlides st) (currentChunk st ++ [part1])
              (currentLinesUsed st)))
        [part2] (getLineCost part2).

(** The loop and the flush of the last chunk, from the pages pushed so far. *)
Definition paginate (slide : SlideData) (reflowedContent : list jsstring)
    (pushed : list SlideData) : list SlideData :=
  let st := fold_left (paginateStep slide) reflowedContent (mkPag pushed [] 0) in
  if (0 <? length (currentChunk st))%nat then flush slide st
  else paginatedSlides st.

(** The callback of [generatedData.forEach]. *)
Definition paginateSlide (pushed : list SlideData) (slide : SlideData)
    : list SlideData :=
  if negb (isContent slide) || (length (content slide) =? 0)%nat
  then pushed ++ [slide]
  else paginate slide (reflowContent (content slide)) pushed.

Definition paginateAll (generatedData : list SlideData) : list SlideData :=
  fold_left paginateSlide generatedData [].

(** The contents of the pages the paginator makes of a paragraph list. *)
Definition pagesOf (slide : SlideData) (reflowedContent : list jsstring)
    : list (list jsstring) :=
  map content (paginate slide reflowedContent []).

Definition totalCost (page : list jsstring) : Z :=
  fold_right (fun p acc => getLineCost p + acc) 0 page.

(** ** The finishing pass ([geminiService.ts], lines 137-154) *)

(** The code units of an ASCII literal. *)
Definition ofString (s : string) : jsstring :=
  map N_of_ascii (list_ascii_of_string s).

Fixpoint digits (d : Decimal.uint) : jsstring :=
  match d with
  | Decimal.Nil => []
  | Decimal.D0 d => 48%N :: digits d
  | Decimal.D1 d => 49%N :: digits d
  | Decimal.D2 d => 50%N :: digits d
  | Decimal.D3 d => 51%N :: digits d
  | Decimal.D4 d => 52%N :: digits d
  | Decimal.D5 d => 53%N :: digits d
  | Decimal.D6 d => 54%N :: digits d
  | Decimal.D7 d => 55%N :: digits d
  | Decimal.D8 d => 56%N :: digits d
  | Decimal.D9 d => 57%N :: digits d
  end.

(** A non-negative integer inside a template literal. *)
Definition decimal (n : N) : jsstring := digits (N.to_uint n).

Definition defaultBackground : jsstring :=
  ofString
    "https://images.unsplash.com/photo-1618005182384-a83a8bd57fbe?q=80&w=600&auto=format&fit=crop".

(** ["干货满满"] and ["建议收藏"] *)
Definition defaultTags : list jsstring :=
  [[24178; 36135; 28385; 28385]; [24314; 35758; 25910; 34255]]%N.

(** The callback of [finalData.map]; [now] is what [Date.now()] returns in
    this call. *)
Definition finishSlide (now : N) (totalContentSlides : Z)
    (coverCategory : jsstring) (index : nat) (slide : SlideData) : SlideData :=
  mkSlide
    (Some (ofString "slide-" ++ decimal now ++ ofString "-"
             ++ decimal (N.of_nat index)))
    (type slide) (title slide) (content slide) (subtitle slide)
    (Some (orString (category slide) coverCategory))
    (Some (default defaultTags (tags slide)))
    (Some (Z.of_nat index + 1))
    (Some totalContentSlides)
    (if isCover slide then Some defaultBackground else None)
    (if isCover slide then Some 48 else None)
    (if isCover slide then Some classic else None).

Definition finishingPass (clock : nat -> N) (finalData : list SlideData)
    : list SlideData :=
  let totalContentSlides := Z.of_nat (length finalData) in
  let coverCategory :=
    orString (find isCover finalData ≫= category)
      (ofString "Knowledge System") in
  imap (fun index slide =>
          finishSlide (clock index) totalContentSlides coverCategory index slide)
    finalData.

(** What [generateSlidesFromText] makes of the server's answer. *)
Definition generateSlides (clock : nat -> N) (generatedData : list SlideData)
    : list SlideData :=
  finishingPass clock (paginateAll generatedData).

(** ** Renumbering after an edit ([App.tsx], lines 54-77) *)

(** [{ ...slide, totalPages: n }] *)
Definition withTotalPages (slide : SlideData) (n : Z) : SlideData :=
  mkSlide (id slide) (type slide) (title slide) (content slide)
    (subtitle slide) (category slide) (tags slide) (pageNumber slide) (Some n)
    (backgroundImage slide) (titleFontSize slide) (coverStyle slide).

(** [{ ...slide, pageNumber: k, totalPages: n }] *)
Definition withPageNumbers (slide : SlideData) (k n : Z) : SlideData :=
  mkSlide (id slide) (type slide) (title slide) (content slide)
    (subtitle slide) (category slide) (tags slide) (Some k) (Some n)
    (backgroundImage slide) (titleFontSize slide) (coverStyle slide).

(** The [map] of [reindexSlides]; its callback increments the captured
    [contentIndex], which is threaded here. *)
Fixpoint reindexMap (totalContent contentIndex : Z)
    (currentSlides : list SlideData) : list SlideData :=
  match currentSlides with
  | [] => []
  | slide :: rest =>
      if isCover slide
      then withTotalPages slide totalContent
             :: reindexMap totalContent contentIndex rest
      else
        let contentIndex' := contentIndex + 1 in
        withPageNumbers slide contentIndex' totalContent
          :: reindexMap totalContent contentIndex' rest
  end.

Definition reindexSlides (currentSlides : list SlideData) : list SlideData :=
  let contentSlides := List.filter (fun s => negb (isCover s)) currentSlides in
  let totalContent := Z.of_nat (length contentSlides) in
  reindexMap totalContent 0 currentSlides.

(** ** Paragraph ingestion ([server.js], line 147) *)

(** [text.split(/\n+/)]: the pieces between maximal runs of newlines;
    [inRun] says that the previous code unit was a newline, [piece] is the
    piece being read. *)
Fixpoint splitGo (inRun : bool) (piece text : jsstring) : list jsstring :=
  match text with
  | [] => [piece]
  | c :: text' =>
      if (c =? NEWLINE)%N
      then if inRun then splitGo true [] text'
           else piece :: splitGo true [] text'
      else splitGo false (piece ++ [c]) text'
  end.

Definition splitNewlines (text : jsstring) : list jsstring :=
  splitGo false [] text.

(** [line.trim().length > 0] *)
Definition nonBlank (line : jsstring) : bool :=
  (0 <? length (trim line))%nat.

Definition rawParagraphs (text : jsstring) : list jsstring :=
  List.filter nonBlank (splitNewlines text).

(** The ingestion as the specification words it, for comparison with
    [rawParagraphs]: the lines of the text are grouped into paragraphs that
    runs of blank lines separate, each paragraph is trimmed and the empty
    ones are discarded. *)
Fixpoint splitAtNewline (piece text : jsstring) : list jsstring :=
  match text with
  | [] => [piece]
  | c :: text' =>
      if (c =? NEWLINE)%N then piece :: splitAtNewline [] text'
      else splitAtNewline (piece ++ [c]) text'
  end.

Fixpoint groupLines (para : option jsstring) (lines : list jsstring)
    : list jsstring :=
  match lines with
  | [] => match para with Some p => [p] | None => [] end
  | l :: lines' =>
      if nonBlank l then
        groupLines
          (Some (match para with Some p => p ++ [NEWLINE] ++ l | None => l end))
          lines'
      else
        match para with
        | Some p => p :: groupLines None lines'
        | None => groupLines None lines'
        end
  end.

Definition specParagraphs (text : jsstring) : list jsstring :=
  List.filter (fun p => (0 <? length p)%nat)
    (map trim (groupLines None (splitAtNewline [] text))).

(** ** Sample inputs *)

(** [c.repeat(n)] for a one-character string [c]. *)
Definition repeatChar (n : nat) (c : N) : jsstring := repeat c n.

(** A content slide as the server builds it, with [content] as given. *)
Definition contentSlide (c : list jsstring) : SlideData :=
  mkSlide None ty_content [] c None (Some (ofString "Knowledge")) None None
    None None None None.

(** A cover slide as the server builds it. *)
Definition coverSlide (quote : jsstring) : SlideData :=
  mkSlide None ty_cover (ofString "Main Title") [quote]
    (Some (ofString "Summary")) (Some (ofString "Knowledge"))
    (Some [[24178; 36135]%N]) None None None None None.

(** [{ ...s, id: i }] *)
Definition withId (s : SlideData) (i : jsstring) : SlideData :=
  mkSlide (Some i) (type s) (title s) (content s) (subtitle s) (category s)
    (tags s) (pageNumber s) (totalPages s) (backgroundImage s)
    (titleFontSize s) (coverStyle s).

(** A deck of a cover [c] and the content slides [a] and [b]. *)
Definition sampleDeck : list SlideData :=
  [withId (coverSlide (ofString "q")) (ofString "c");
   withId (contentSlide [ofString "abc"; ofString "def"; ofString "ghi"])
     (ofString "a");
   withId (contentSlide [ofString "xyz"]) (ofString "b")].

(** A paragraph of 82 code units that begins with a full stop: the full
    stop, forty [a], a full stop and forty [b]. *)
Definition leadingStopParagraph : jsstring :=
  ofString "." ++ repeatChar 40 97 ++ ofString "." ++ repeatChar 40 98.

(** A paragraph of two sentences and 81 code units: forty [a], a full stop
    and forty [b]. *)
Definition twoSentences : jsstring :=
  repeatChar 40 97 ++ ofString "." ++ repeatChar 40 98.

(** A paragraph of 124 code units whose spans after the leading full stop
    begin with [#]: [".#"], forty [a], a full stop, forty [b], a full stop
    and forty [c]. *)
Definition hashAfterStop : jsstring :=
  ofString ".#" ++ repeatChar 40 97 ++ ofString "." ++ repeatChar 40 98
    ++ ofString "." ++ repeatChar 40 99.

(** ** The states of the [for] loop of [reflowContent] *)

(** One round of the [for] loop at index [i], the body of [reflowFor]: the
    buffer and [refined] after it; [None] when the loop is over. *)
Definition reflowRound (i : nat) (buffer refined : list jsstring)
    : option (list jsstring * list jsstring) :=
  match buffer !! i with
  | None => None
  | Some current =>
      if startsWith [HASH] current then Some (buffer, refined ++ [current])
      else
        match reflowWhile (length current) i current buffer with
        | None => None
        | Some (current', buffer') => Some (buffer', refined ++ [current'])
        end
  end.

(** The buffer and [refined] when the loop, started at index [i], has made
    [n] rounds and is about to read index [i + n]. *)
Fixpoint reflowRounds (n i : nat) (buffer refined : list jsstring)
    : option (list jsstring * list jsstring) :=
  match n with
  | O => Some (buffer, refined)
  | S n' =>
      match reflowRound i buffer refined with
      | None => None
      | Some (buffer', refined') => reflowRounds n' (i + 1)%nat buffer' refined'
      end
  end.

(** ** Views of the reflow loops used in the proofs

    The [for] loop at index [i] reads [buffer[i]] and the [while] loop
    writes only [buffer[i + 1]] or pushes: the slots before [i + 1] are never
    touched again.  [moveTails] and [reflowRest] are the two loops on the
    slots after [i] and from [i] on; [reflowWhile_tail] and [reflowFor_rest]
    relate them to the loops over the indexed buffer. *)

(** [buffer[i + 1] = s + buffer[i + 1]], or the push, on the slots after
    [i]. *)
Definition prependTo (s : jsstring) (rest : list jsstring) : list jsstring :=
  match rest with
  | [] => [s]
  | next :: rest' => (s ++ next) :: rest'
  end.

Fixpoint moveTails (fuel : nat) (current : jsstring) (rest : list jsstring)
    : option (jsstring * list jsstring) :=
  if (length current <=? MAX_CHARS_PER_PARA)%nat then Some (current, rest)
  else
    let sentences := splitIntoSentences current in
    if (length sentences <=? 1)%nat then Some (current, rest)
    else
      match fuel with
      | O => None
      | S n =>
          moveTails n (concat (removelast sentences))
            (prependTo (orString (last sentences) []) rest)
      end.

Fixpoint reflowRest (fuel : nat) (slots : list jsstring)
    : option (list jsstring) :=
  match slots with
  | [] => Some []
  | current :: rest =>
      match fuel with
      | O => None
      | S n =>
          if startsWith [HASH] current
          then cons current <$> reflowRest n rest
          else
            match moveTails (length current) current rest with
            | None => None
            | Some (current', rest') => cons current' <$> reflowRest n rest'
            end
      end
  end.

(** A string begins with no sentence-boundary character. *)
Definition noLeadingBoundary (s : jsstring) : bool :=
  match s with
  | [] => true
  | c :: _ => negb (isBoundary c)
  end.

(** A slot the reflow loop leaves alone: a heading, a slot within the
    budget, or one with fewer than two sentence spans. *)
Definition settled (s : jsstring) : bool :=
  startsWith [HASH] s || (length s <=? MAX_CHARS_PER_PARA)%nat
  || (length (splitIntoSentences s) <=? 1)%nat.

(** The slot the [while] loop ends on. *)
Definition loopExit (current : jsstring) : Prop :=
  (length current <= MAX_CHARS_PER_PARA)%nat
  \/ (length (splitIntoSentences current) <= 1)%nat.

(** ** Pages and the invariant of the paginator loop *)

(** A page within the budget, or the page of one paragraph that alone
    exceeds it. *)
Definition pageOk (page : list jsstring) : Prop :=
  totalCost page <= MAX_LINES_PER_PAGE
  \/ exists p, page = [p] /\ MAX_LINES_PER_PAGE < getLineCost p.

(** What the loop keeps true: the pages pushed are in order and not empty,
    the running total is the cost of the chunk, the chunk is a page in
    order, and pages and chunk hold exactly the text read so far. *)
Record pagInv (seen : jsstring) (st : PagState) : Prop := {
  inv_pages : Forall pageOk (map content (paginatedSlides st));
  inv_nonempty :
    Forall (fun page => page <> []) (map content (paginatedSlides st));
  inv_used : currentLinesUsed st = totalCost (currentChunk st);
  inv_chunk : pageOk (currentChunk st);
  inv_text :
    concat (concat (map content (paginatedSlides st)))
      ++ concat (currentChunk st)
    = seen
}.

(** The paragraph [x] stands whole on a pushed page or in the chunk. *)
Definition placed (st : PagState) (x : jsstring) : Prop :=
  (exists page, In page (map content (paginatedSlides st)) /\ In x page)
  \/ In x (currentChunk st).

(** ** The properties as the specification states them, where the code
    differs *)

(** Heading isolation as stated, in its two parts: the reflow engine
    passes every heading of its input through unchanged; and on every page
    a heading can only be the first element. *)
Definition headingsPassThrough (input : list jsstring) : Prop :=
  forall h, In h input -> startsWith [HASH] h = true ->
            In h (reflowContent input).

Definition headingsOpenPages (slide : SlideData) (input : list jsstring)
    : Prop :=
  Forall (fun page =>
            forall (j : nat) (h : jsstring),
              page !! j = Some h -> startsWith [HASH] h = true -> j = 0%nat)
    (pagesOf slide (reflowContent input)).

Definition headingIsolation (slide : SlideData) (input : list jsstring)
    : Prop :=
  headingsPassThrough input /\ headingsOpenPages slide input.

(** Idempotence as stated: a second run changes nothing, every fragment of
    the first being within the budget. *)
Definition idempotentWithinBudget (xs : list jsstring) : Prop :=
  reflowContent (reflowContent xs) = reflowContent xs
  /\ Forall (fun s => (length s <= MAX_CHARS_PER_PARA)%nat) (reflowContent xs).

(** Verbatim preservation as stated, for the pages made of one slide. *)
Definition verbatim (slide : SlideData) : Prop :=
  concat (concat (map content (paginateSlide [] slide)))
  = concat (content slide).

(** The fields that renumbering is not to touch. *)
Definition sameOtherFields (s s' : SlideData) : Prop :=
  id s' = id s /\ type s' = type s /\ title s' = title s
  /\ content s' = content s /\ subtitle s' = subtitle s
  /\ category s' = category s /\ tags s' = tags s
  /\ backgroundImage s' = backgroundImage s
  /\ titleFontSize s' = titleFontSize s /\ coverStyle s' = coverStyle s.

(** ** The editing handlers of [App.tsx] (lines 120-159, 197) *)

(** [a === b] on strings. *)
Fixpoint eqString (a b : jsstring) : bool :=
  match a, b with
  | [], [] => true
  | x :: a', y :: b' => (x =? y)%N && eqString a' b'
  | _, _ => false
  end.

(** [s.id === id] *)
Definition hasId (id' : jsstring) (s : SlideData) : bool :=
  match id s with
  | Some x => eqString x id'
  | None => false
  end.

(** [slides.findIndex(f)], with [None] for [-1]. *)
Fixpoint findIndex (f : SlideData -> bool) (l : list SlideData) : option nat :=
  match l with
  | [] => None
  | s :: l' => if f s then Some 0%nat else S <$> findIndex f l'
  end.

(** The two pieces of state the handlers write. *)
Record AppState := mkApp {
  slides : list SlideData;
  activeSlideId : option jsstring
}.

(** [activeSlideId === id], where [activeSlideId] may be [null]. *)
Definition isActive (st : AppState) (id' : jsstring) : bool :=
  match activeSlideId st with
  | Some a => eqString a id'
  | None => false
  end.

(** [arr[k]] for a number [k]: [undefined] off the array. *)
Definition at_ {A} (l : list A) (k : Z) : option A :=
  if k <? 0 then None else l !! Z.to_nat k.

Definition handleDeleteSlide (id' : jsstring) (st : AppState) : AppState :=
  match findIndex (hasId id') (slides st) with
  | None => st
  | Some slideIndex =>
      let newSlides := List.filter (fun s => negb (hasId id' s)) (slides st) in
      let reindexed := reindexSlides newSlides in
      if isActive st id' then
        let nextIndex :=
          Z.min (Z.of_nat slideIndex) (Z.of_nat (length reindexed) - 1) in
        match at_ reindexed nextIndex with
        | Some next => mkApp reindexed (id next)
        | None =>
            match reindexed with
            | first :: _ => mkApp reindexed (id first)
            | [] => mkApp reindexed None
            end
        end
      else mkApp reindexed (activeSlideId st)
  end.

(** The slide [handleAddSlide] makes; [now] is what [Date.now()] returns. *)
Definition manualSlide (now : N) (cat : option jsstring) : SlideData :=
  mkSlide (Some (ofString "manual-slide-" ++ decimal now)) ty_content
    (ofString "New Page") [ofString "Enter your text here..."] None cat
    None None None None None None.

(** [arr.splice(k, 0, x)] for an index [k] within the array. *)
Definition spliceIn {A} (k : nat) (x : A) (l : list A) : list A :=
  take k l ++ x :: drop k l.

Definition handleAddSlide (now : N) (afterId : jsstring) (st : AppState)
    : AppState :=
  match findIndex (hasId afterId) (slides st) with
  | None => st
  | Some index =>
      let newSlide :=
        manualSlide now (slides st !! index ≫= category) in
      let newSlides := spliceIn (index + 1) newSlide (slides st) in
      mkApp (reindexSlides newSlides) (id newSlide)
  end.

(** [s.padStart(targetLength, c)] for a one-character filler [c]. *)
Definition padStart (targetLength : nat) (c : N) (s : jsstring) : jsstring :=
  repeat c (targetLength - length s) ++ s.

(** The string of a slide type. *)
Definition typeName (t : SlideType) : jsstring :=
  match t with
  | ty_cover => ofString "cover"
  | ty_content => ofString "content"
  | ty_promo => ofString "promo"
  end.

(** The name of the image of slide [i] in the archive
    ([handleDownloadAll], line 197). *)
Definition exportFileName (i : nat) (slide : SlideData) : jsstring :=
  padStart 2 48 (decimal (N.of_nat i + 1)) ++ ofString "_"
    ++ typeName (type slide) ++ ofString ".png".

(** ** The handlers of [Editor.tsx] (lines 27-118) *)

(** [l.slice(from, to)] and [l.slice(from)] on an array. *)
Definition sliceOf {A} (l : list A) (from to : Z) : list A :=
  let len := Z.of_nat (length l) in
  let a := relIndex len from in
  let b := relIndex len to in
  take (Z.to_nat (b - a)) (drop (Z.to_nat a) l).

Definition sliceOfFrom {A} (l : list A) (from : Z) : list A :=
  sliceOf l from (Z.of_nat (length l)).

(** The slide [handleSplitSlide] makes of the moved paragraphs. *)
Definition splitSlide (now : N) (currentSlide : SlideData)
    (contentToMove : list jsstring) : SlideData :=
  mkSlide (Some (ofString "split-slide-" ++ decimal now)) ty_content
    (title currentSlide) contentToMove (subtitle currentSlide)
    (category currentSlide) (tags currentSlide) None None
    (backgroundImage currentSlide) None (coverStyle currentSlide).

Definition handleSplitSlide (now : N) (id' : jsstring) (index : Z)
    (st : AppState) : AppState :=
  match findIndex (hasId id') (slides st) with
  | None => st
  | Some slideIndex =>
      match slides st !! slideIndex with
      | None => st
      | Some currentSlide =>
          if Z.of_nat (length (content currentSlide)) - 1 <=? index then st
          else
            let contentToKeep := sliceOf (content currentSlide) 0 (index + 1) in
            let contentToMove := sliceOfFrom (content currentSlide) (index + 1) in
            let updatedCurrentSlide := withContent currentSlide contentToKeep in
            let newSlide := splitSlide now currentSlide contentToMove in
            let newSlides :=
              spliceIn (slideIndex + 1) newSlide
                (<[slideIndex := updatedCurrentSlide]> (slides st)) in
            mkApp newSlides (id newSlide)
      end
  end.

(** [l.filter((_, i) => i !== index)] *)
Definition filterIndex {A} (index : Z) (l : list A) : list A :=
  map snd
    (List.filter (fun ix => negb (Z.of_nat (fst ix) =? index))
       (imap (fun i x => (i, x)) l)).

(** The [setSlides] update of [handleDeleteParagraph]. *)
Definition handleDeleteParagraph (id' : jsstring) (index : Z)
    (prev : list SlideData) : list SlideData :=
  map (fun s =>
         if negb (hasId id' s) then s
         else withContent s (filterIndex index (content s)))
    prev.

(** The character class [[,，\s]] of [handleTagsChange]. *)
Definition isTagSeparator (c : N) : bool :=
  (c =? 44)%N || (c =? 65292)%N || isWhiteSpace c.

(** [value.split(re)] for a regular expression [re] that matches the
    non-empty runs of separator characters. *)
Fixpoint splitRuns (isSep : N -> bool) (inRun : bool) (piece value : jsstring)
    : list jsstring :=
  match value with
  | [] => [piece]
  | c :: value' =>
      if isSep c
      then if inRun then splitRuns isSep true [] value'
           else piece :: splitRuns isSep true [] value'
      else splitRuns isSep false (piece ++ [c]) value'
  end.

(** The tags [handleTagsChange] makes of the text of the input field. *)
Definition parseTags (value : jsstring) : list jsstring :=
  List.filter nonBlank (splitRuns isTagSeparator false [] value).

(** [{ ...s, tags: t }] *)
Definition withTags (s : SlideData) (t : list jsstring) : SlideData :=
  mkSlide (id s) (type s) (title s) (content s) (subtitle s) (category s)
    (Some t) (pageNumber s) (totalPages s) (backgroundImage s)
    (titleFontSize s) (coverStyle s).

(** The [setSlides] update of [handleTagsChange], through [updateSlide]. *)
Definition handleTagsChange (id' : jsstring) (value : jsstring)
    (prev : list SlideData) : list SlideData :=
  map (fun s => if hasId id' s then withTags s (parseTags value) else s) prev.

(** [tags.join(sep)] *)
Fixpoint join (sep : jsstring) (parts : list jsstring) : jsstring :=
  match parts with
  | [] => []
  | [p] => p
  | p :: parts' => p ++ sep ++ join sep parts'
  end.

(** The text the tag field shows: [tags.join(', ')], or [''] without tags. *)
Definition tagsField (s : SlideData) : jsstring :=
  match tags s with
  | Some t => join (ofString ", ") t
  | None => []
  end.

(** ** The slides the server answers with ([server.js], lines 101-170) *)

(** The metadata object, with the fields the prompt asks for; a field the
    model left out is [None]. *)
Record Metadata := mkMeta {
  metaTitle : option jsstring;
  metaSubtitle : option jsstring;
  metaCategory : option jsstring;
  metaTags : option (list jsstring);
  metaQuote : option jsstring
}.

(** The cover slide of the answer. *)
Definition serverCover (title subtitle : option jsstring) (metadata : Metadata)
    (paragraphs : list jsstring) : SlideData :=
  let safeTitle := orString title (ofString "Main Title") in
  let safeSubtitle := orString subtitle (ofString "Summary") in
  mkSlide None ty_cover
    (orString (metaTitle metadata) safeTitle)
    [orString (metaQuote metadata)
       (orString (head paragraphs) (ofString "Summary"))]
    (Some (orString (metaSubtitle metadata) safeSubtitle))
    (Some (orString (metaCategory metadata) (ofString "Knowledge")))
    (Some (default [[24178; 36135]%N] (metaTags metadata)))
    None None None None None.

(** A content slide of the answer. *)
Definition serverContent (cover : SlideData) (para : jsstring) : SlideData :=
  mkSlide None ty_content [] [para] None (category cover) None None None None
    None None.

(** The metadata [{}] taken when the reply holds no object. *)
Definition emptyMetadata : Metadata := mkMeta None None None None None.

(** What the route answers: status 400, status 500, or the slides. *)
Inductive Response :=
  | Status400
  | Status500
  | Answer (finalResult : list SlideData).

(** The answer to a request with the body [{ text, title, subtitle }].  A
    missing or empty text is refused with status 400 before anything else.
    [aiResultRaw] is the outcome of the awaited [callDeepSeek]: [None] when
    it throws (no key, a failed call, a reply that is no JSON), which the
    route answers with status 500; else the array it returns, of which the
    first object, or [{}], is the metadata. *)
Definition apiGenerate (text title subtitle : option jsstring)
    (aiResultRaw : option (list Metadata)) : Response :=
  match text with
  | None | Some [] => Status400
  | Some (c :: t) =>
      match aiResultRaw with
      | None => Status500
      | Some reply =>
          let metadata := default emptyMetadata (head reply) in
          let paragraphs := rawParagraphs (c :: t) in
          let cover := serverCover title subtitle metadata paragraphs in
          Answer (cover :: map (serverContent cover) paragraphs)
      end
  end.

(** The last character of a span is a sentence boundary. *)
Definition endsWithBoundary (m : jsstring) : bool :=
  match last m with
  | Some c => isBoundary c
  | None => false
  end.

(** ** Sentence splitting *)

Section Sentences.

Lemma span_app f s : (span f s).1 ++ (span f s).2 = s.
Proof.
  induction s as [|c s IH]; simpl; [done|].
  destruct (f c); [|done].
  destruct (span f s) as [a b]; simpl in *. by rewrite IH.
Qed.

Lemma span_fst_all f s : Forall (fun c => f c = true) (span f s).1.
Proof.
  induction s as [|c s IH]; simpl; [constructor|].
  destruct (f c) eqn:E; [|constructor].
  destruct (span f s) as [a b]; simpl in *. by constructor.
Qed.

Lemma span_snd_head f s c b : (span f s).2 = c :: b -> f c = false.
Proof.
  induction s as [|d s IH]; simpl; [done|].
  destruct (f d) eqn:E.
  - destruct (span f s) as [a b']; simpl in *. exact IH.
  - simpl. by intros [= -> _].
Qed.

Lemma span_fst_nil f s : (span f s).1 = [] -> s = [] \/ exists c s', s = c :: s' /\ f c = false.
Proof.
  destruct s as [|c s]; simpl; [by left|].
  destruct (f c) eqn:E.
  - destruct (span f s); done.
  - right; eauto.
Qed.

Lemma dropWhile_length f s : (length (dropWhile f s) <= length s)%nat.
Proof.
  induction s as [|c s IH]; simpl; [lia|]. destruct (f c); simpl; lia.
Qed.

(** A successful attempt splits the text into a non-empty match that begins
    with a non-boundary character, and a rest that is empty or begins with a
    non-boundary character. *)
Lemma sentenceAt_Some s m rest :
  sentenceAt s = Some (m, rest) ->
  s = m ++ rest /\ m <> [] /\ noLeadingBoundary m = true
  /\ noLeadingBoundary rest = true.
Proof.
  unfold sentenceAt.
  pose proof (span_app (fun c => negb (isBoundary c)) s) as Hs.
  pose proof (span_fst_all (fun c => negb (isBoundary c)) s) as Hrun.
  destruct (span (fun c => negb (isBoundary c)) s) as [run rest0]; simpl in *.
  destruct run as [|r run]; [done|].
  pose proof (span_app isBoundary rest0) as Hr.
  pose proof (span_snd_head isBoundary rest0) as Hh.
  destruct (span isBoundary rest0) as [term rest1]; simpl in *.
  assert (Hr0 : negb (isBoundary r) = true) by (by inversion Hrun).
  destruct term as [|t term].
  - destruct rest0; [|done]. intros [= <- <-].
    rewrite !app_nil_r in *. subst s. by repeat split.
  - intros [= <- <-]. repeat split; try done.
    + rewrite <- Hs, <- Hr. simpl. f_equal. by rewrite <- app_assoc.
    + destruct rest1 as [|c b]; [done|]. simpl.
      by rewrite (Hh c b eq_refl).
Qed.

(** An attempt fails exactly at the end of the text and at a boundary
    character. *)
Lemma sentenceAt_None s :
  sentenceAt s = None -> s = [] \/ exists c s', s = c :: s' /\ isBoundary c = true.
Proof.
  unfold sentenceAt.
  pose proof (span_fst_nil (fun c => negb (isBoundary c)) s) as Hnil.
  pose proof (span_snd_head (fun c => negb (isBoundary c)) s) as Hh.
  destruct (span (fun c => negb (isBoundary c)) s) as [run rest0]; simpl in *.
  destruct run as [|r run].
  - intros _. destruct (Hnil eq_refl) as [->|(c & s' & -> & Hc)]; [by left|].
    right. exists c, s'. split; [done|]. by destruct (isBoundary c).
  - pose proof (span_fst_nil isBoundary rest0) as Hb.
    destruct (span isBoundary rest0) as [term rest1]; simpl in *.
    destruct term; [|done]. destruct rest0 as [|c b]; [done|].
    intros _. exfalso.
    destruct (Hb eq_refl) as [|(c' & s' & [= <- <-] & Hc)]; [done|].
    specialize (Hh c b eq_refl). simpl in Hh. rewrite Hc in Hh. done.
Qed.

(** The matches are the text without its leading boundary characters. *)
Lemma matchAll_concat fuel s :
  (length s <= fuel)%nat ->
  concat (matchAll fuel s) = dropWhile isBoundary s.
Proof.
  revert s. induction fuel as [|n IH]; intros s Hlen.
  - destruct s; simpl in *; [done|lia].
  - destruct s as [|c s']; [done|].
    cbn [matchAll]. destruct (sentenceAt (c :: s')) as [[m rest]|] eqn:E.
    + apply sentenceAt_Some in E as (Hs & Hm & Hnb & Hrest).
      simpl. rewrite IH.
      * destruct m as [|c0 m]; [done|]. simpl in Hs. injection Hs as <- ->.
        simpl in Hnb. simpl. destruct (isBoundary c); [done|].
        f_equal. f_equal. destruct rest as [|d rest]; [done|].
        simpl in *. by destruct (isBoundary d).
      * destruct m; [done|]. apply (f_equal length) in Hs.
        simpl in Hs. rewrite length_app in Hs. simpl in *. lia.
    + apply sentenceAt_None in E as [|(c' & s'' & [= <- <-] & Hc)]; [done|].
      simpl. rewrite Hc. apply IH. simpl in Hlen. lia.
Qed.

Lemma matchAll_spans fuel s :
  Forall (fun m => m <> [] /\ noLeadingBoundary m = true) (matchAll fuel s).
Proof.
  revert s. induction fuel as [|n IH]; intros s; [constructor|].
  destruct s as [|c s']; [constructor|].
  cbn [matchAll]. destruct (sentenceAt (c :: s')) as [[m rest]|] eqn:E.
  - apply sentenceAt_Some in E as (Hs & Hm & Hnb & Hrest).
    constructor; [done|apply IH].
  - apply IH.
Qed.

(** Rounds beyond the length of the text change nothing. *)
Lemma matchAll_more fuel fuel' s :
  (length s <= fuel)%nat -> (length s <= fuel')%nat ->
  matchAll fuel s = matchAll fuel' s.
Proof.
  revert fuel' s. induction fuel as [|n IH]; intros fuel' s Hs Hs'.
  - destruct s; [by destruct fuel'|simpl in Hs; lia].
  - destruct s as [|c s]; [by destruct fuel'|].
    destruct fuel' as [|n']; [simpl in Hs'; lia|]. cbn [matchAll].
    destruct (sentenceAt (c :: s)) as [[m rest]|] eqn:E.
    + apply sentenceAt_Some in E as (Hcat & Hm & _).
      assert (Hlen : (length rest <= length s)%nat).
      { apply (f_equal length) in Hcat. rewrite length_app in Hcat.
        destruct m; [done|]. simpl in Hcat. lia. }
      simpl in Hs, Hs'. f_equal. apply IH; lia.
    + simpl in Hs, Hs'. apply IH; lia.
Qed.

(** With two spans or more, [splitIntoSentences] gives the matches: their
    concatenation is the text without its leading boundary characters, and
    each of them is non-empty and begins with a non-boundary character. *)
Lemma splitIntoSentences_many text :
  (2 <= length (splitIntoSentences text))%nat ->
  concat (splitIntoSentences text) = dropWhile isBoundary text
  /\ Forall (fun m => m <> [] /\ noLeadingBoundary m = true)
       (splitIntoSentences text).
Proof.
  unfold splitIntoSentences.
  pose proof (matchAll_concat (length text) text (le_n _)) as Hc.
  pose proof (matchAll_spans (length text) text) as Hs.
  destruct (matchAll (length text) text) as [|m ms]; [simpl; lia|].
  done.
Qed.

End Sentences.

(** ** The reflow loops *)

Section Reflow.

Implicit Types (current moved : jsstring) (rest slots buffer : list jsstring).

Lemma last_removelast (ss : list jsstring) :
  ss <> [] -> exists x, last ss = Some x /\ ss = removelast ss ++ [x].
Proof.
  intros Hne. destruct (exists_last Hne) as (l & x & ->).
  exists x. rewrite last_snoc, removelast_last. done.
Qed.

Lemma prependTo_prependTo moved moved' rest :
  prependTo moved' (prependTo moved rest) = prependTo (moved' ++ moved) rest.
Proof. destruct rest; simpl; by rewrite <- ?app_assoc. Qed.

Lemma dropWhile_noLeadingBoundary s :
  noLeadingBoundary s = true -> dropWhile isBoundary s = s.
Proof. destruct s as [|c s]; simpl; [done|]. by destruct (isBoundary c). Qed.

Lemma noLeadingBoundary_app s t :
  s <> [] -> noLeadingBoundary s = true -> noLeadingBoundary (s ++ t) = true.
Proof. by destruct s. Qed.

(** One round of the [while] loop: what is cut off and what remains. *)
Lemma tail_move current :
  (2 <= length (splitIntoSentences current))%nat ->
  exists x,
    last (splitIntoSentences current) = Some x
    /\ orString (last (splitIntoSentences current)) [] = x
    /\ x <> [] /\ noLeadingBoundary x = true
    /\ concat (removelast (splitIntoSentences current)) <> []
    /\ noLeadingBoundary (concat (removelast (splitIntoSentences current))) = true
    /\ concat (removelast (splitIntoSentences current)) ++ x
       = dropWhile isBoundary current.
Proof.
  intros Hlen.
  destruct (splitIntoSentences_many current Hlen) as [Hcat Hall].
  destruct (splitIntoSentences current) as [|m ss] eqn:E; [simpl in Hlen; lia|].
  destruct (last_removelast (m :: ss)) as (x & Hlast & Hsplit); [done|].
  exists x. rewrite Hlast.
  assert (Hx : x <> [] /\ noLeadingBoundary x = true).
  { rewrite Forall_forall in Hall. apply Hall.
    rewrite Hsplit. apply elem_of_app. right. by apply list_elem_of_singleton. }
  destruct Hx as [Hx1 Hx2].
  destruct ss as [|m' ss]; [simpl in Hlen; lia|].
  inversion Hall as [|? ? [Hm1 Hm2] _]; subst.
  change (removelast (m :: m' :: ss)) with (m :: removelast (m' :: ss)) in *.
  repeat split; try done.
  - by destruct x.
  - simpl. by destruct m.
  - simpl. by apply noLeadingBoundary_app.
  - rewrite <- Hcat, Hsplit.
    change (m :: removelast (m' :: ss) ++ [x])
      with ((m :: removelast (m' :: ss)) ++ [x]).
    rewrite concat_app. simpl. by rewrite app_nil_r.
Qed.

(** Each round strictly shortens the current slot. *)
Lemma tail_move_shorter current :
  (2 <= length (splitIntoSentences current))%nat ->
  (length (concat (removelast (splitIntoSentences current)))
   < length current)%nat.
Proof.
  intros Hlen. destruct (tail_move current Hlen) as (x & _ & _ & Hx & _ & _ & _ & Hcat).
  pose proof (dropWhile_length isBoundary current) as Hd.
  rewrite <- Hcat, length_app in Hd.
  destruct x; [done|]. simpl in Hd. lia.
Qed.

(** The [while] loop ends, with [length current] rounds at most; it either
    changes nothing, or it has moved a non-empty text from the end of the
    slot to the front of the slots that follow. *)
Lemma moveTails_spec fuel current rest :
  (length current <= fuel)%nat ->
  exists c rest',
    moveTails fuel current rest = Some (c, rest') /\ loopExit c
    /\ ((c = current /\ rest' = rest)
        \/ exists moved,
             moved <> [] /\ noLeadingBoundary moved = true
             /\ c <> [] /\ noLeadingBoundary c = true
             /\ c ++ moved = dropWhile isBoundary current
             /\ rest' = prependTo moved rest).
Proof.
  revert current rest. induction fuel as [|n IH]; intros current rest Hfuel.
  - destruct current; [|simpl in Hfuel; lia].
    exists [], rest. simpl. repeat split; [left; simpl; unfold MAX_CHARS_PER_PARA; lia | by left].
  - cbn [moveTails].
    destruct (length current <=? MAX_CHARS_PER_PARA)%nat eqn:E1.
    { exists current, rest. apply Nat.leb_le in E1.
      repeat split; [by left | by left]. }
    destruct (length (splitIntoSentences current) <=? 1)%nat eqn:E2.
    { exists current, rest. apply Nat.leb_le in E2.
      repeat split; [by right | by left]. }
    apply Nat.leb_gt in E2.
    destruct (tail_move current) as (x & Hlast & Hor & Hx1 & Hx2 & Hr1 & Hr2 & Hcat);
      [lia|].
    pose proof (tail_move_shorter current ltac:(lia)) as Hshort.
    rewrite Hor.
    destruct (IH (concat (removelast (splitIntoSentences current)))
                (prependTo x rest)) as (c & rest' & Heq & Hexit & Hcases); [lia|].
    exists c, rest'. split; [done|]. split; [done|]. right.
    destruct Hcases as [[-> ->]|(moved & Hm1 & Hm2 & Hc1 & Hc2 & Hcm & ->)].
    + exists x. by repeat split.
    + exists (moved ++ x). rewrite prependTo_prependTo.
      repeat split; try done.
      * by destruct moved.
      * by apply noLeadingBoundary_app.
      * rewrite app_assoc, Hcm.
        by rewrite (dropWhile_noLeadingBoundary _ Hr2).
Qed.

(** What a result of the [while] loop says of the slot and of the moved
    text. *)
Lemma moveTails_inv fuel current rest c rest' :
  (length current <= fuel)%nat ->
  moveTails fuel current rest = Some (c, rest') ->
  loopExit c
  /\ ((c = current /\ rest' = rest)
      \/ exists moved,
           moved <> [] /\ noLeadingBoundary moved = true
           /\ c <> [] /\ noLeadingBoundary c = true
           /\ c ++ moved = dropWhile isBoundary current
           /\ rest' = prependTo moved rest).
Proof.
  intros Hfuel Heq.
  destruct (moveTails_spec fuel current rest Hfuel)
    as (c0 & rest0 & Heq0 & Hexit & Hcases).
  rewrite Heq in Heq0. injection Heq0 as <- <-. done.
Qed.

(** More rounds than needed change nothing. *)
Lemma moveTails_more fuel fuel' current rest r :
  moveTails fuel current rest = Some r -> (fuel <= fuel')%nat ->
  moveTails fuel' current rest = Some r.
Proof.
  revert fuel' current rest.
  induction fuel as [|n IH]; intros fuel' current rest.
  - destruct fuel'; [done|]. cbn [moveTails].
    destruct (length current <=? MAX_CHARS_PER_PARA)%nat; [done|].
    destruct (length (splitIntoSentences current) <=? 1)%nat; done.
  - intros H Hle. destruct fuel' as [|m]; [lia|].
    cbn [moveTails] in *.
    destruct (length current <=? MAX_CHARS_PER_PARA)%nat; [done|].
    destruct (length (splitIntoSentences current) <=? 1)%nat; [done|].
    apply IH; [done|lia].
Qed.

Lemma reflowFuel_cons current rest :
  reflowFuel (current :: rest) = S (length current + reflowFuel rest).
Proof. unfold reflowFuel. simpl. rewrite length_app. lia. Qed.

Lemma reflowFuel_prependTo moved rest :
  (reflowFuel (prependTo moved rest) <= S (length moved + reflowFuel rest))%nat.
Proof.
  destruct rest as [|next rest]; simpl.
  - unfold reflowFuel. simpl. rewrite app_nil_r. lia.
  - rewrite !reflowFuel_cons, length_app. lia.
Qed.

(** The slots still to visit weigh less after each round of the [for]
    loop, although the [while] loop may have added one. *)
Lemma moveTails_lighter fuel current rest c rest' :
  (length current <= fuel)%nat ->
  moveTails fuel current rest = Some (c, rest') ->
  (reflowFuel rest' < reflowFuel (current :: rest))%nat.
Proof.
  intros Hfuel Heq.
  destruct (moveTails_inv _ _ _ _ _ Hfuel Heq) as [_ Hcases].
  rewrite reflowFuel_cons.
  destruct Hcases as [[-> ->]|(moved & _ & _ & Hc & _ & Hcm & ->)]; [lia|].
  pose proof (reflowFuel_prependTo moved rest) as Hw.
  pose proof (dropWhile_length isBoundary current) as Hd.
  rewrite <- Hcm, length_app in Hd.
  destruct c; [done|]. simpl in Hd. lia.
Qed.

Lemma reflowRest_total fuel slots :
  (reflowFuel slots <= fuel)%nat -> is_Some (reflowRest fuel slots).
Proof.
  revert slots. induction fuel as [|n IH]; intros slots Hfuel.
  - destruct slots; [by eexists|]. rewrite reflowFuel_cons in Hfuel. lia.
  - destruct slots as [|current rest]; [by eexists|].
    rewrite reflowFuel_cons in Hfuel. cbn [reflowRest].
    destruct (startsWith [HASH] current).
    + destruct (IH rest) as [out Hout]; [lia|]. rewrite Hout. by eexists.
    + destruct (moveTails_spec (length current) current rest (le_n _))
        as (c & rest' & Heq & _).
      rewrite Heq.
      pose proof (moveTails_lighter _ _ _ _ _ (le_n _) Heq) as Hw.
      rewrite reflowFuel_cons in Hw.
      destruct (IH rest') as [out Hout]; [lia|]. rewrite Hout. by eexists.
Qed.

Lemma reflowRest_more fuel fuel' slots out :
  reflowRest fuel slots = Some out -> (fuel <= fuel')%nat ->
  reflowRest fuel' slots = Some out.
Proof.
  revert fuel' slots out.
  induction fuel as [|n IH]; intros fuel' slots out H Hle.
  - destruct slots; [|done]. by destruct fuel'.
  - destruct fuel' as [|m]; [lia|].
    destruct slots as [|current rest]; [done|]. cbn [reflowRest] in *.
    destruct (startsWith [HASH] current).
    + destruct (reflowRest n rest) as [o|] eqn:E; [|done].
      rewrite (IH m rest o E); [done|lia].
    + destruct (moveTails (length current) current rest) as [[c rest']|]; [|done].
      destruct (reflowRest n rest') as [o|] eqn:E; [|done].
      rewrite (IH m rest' o E); [done|lia].
Qed.

(** The [while] loop over the indexed buffer is [moveTails] on the slots
    after [i]; the slots up to [i] are left as they are. *)
Lemma reflowWhile_tail fuel i current (visited rest : list jsstring) :
  length visited = S i ->
  reflowWhile fuel i current (visited ++ rest)
  = (fun r => (r.1, visited ++ r.2)) <$> moveTails fuel current rest.
Proof.
  intros Hlen. revert current rest.
  induction fuel as [|n IH]; intros current rest; cbn [reflowWhile moveTails];
    destruct (length current <=? MAX_CHARS_PER_PARA)%nat; try done;
    destruct (length (splitIntoSentences current) <=? 1)%nat; try done.
  replace (i + 1)%nat with (length visited + 0)%nat by lia.
  rewrite lookup_app_r by lia.
  replace (length visited + 0 - length visited)%nat with 0%nat by lia.
  destruct rest as [|next rest]; cbn [lookup list_lookup prependTo]; cbv iota.
  - rewrite <- app_assoc. apply IH.
  - rewrite insert_app_r. apply IH.
Qed.

(** The [for] loop over the indexed buffer is [reflowRest] on the slots
    from [i] on. *)
Lemma reflowFor_rest fuel i (visited slots refined : list jsstring) :
  length visited = i ->
  reflowFor fuel i (visited ++ slots) refined
  = app refined <$> reflowRest fuel slots.
Proof.
  intros <-. revert visited slots refined.
  assert (Hlook : forall (visited slots : list jsstring),
             (visited ++ slots) !! length visited = slots !! 0%nat).
  { intros v sl. replace (length v) with (length v + 0)%nat at 1 by lia.
    by rewrite lookup_app_r, Nat.add_comm, Nat.add_sub by lia. }
  induction fuel as [|n IH]; intros visited slots refined;
    cbn [reflowFor reflowRest]; rewrite Hlook.
  { destruct slots; simpl; [by rewrite app_nil_r|done]. }
  destruct slots as [|current rest]; [simpl; by rewrite app_nil_r|].
  cbn [lookup list_lookup]; cbv iota.
  assert (Hlen : length (visited ++ [current]) = (length visited + 1)%nat).
  { rewrite length_app. simpl. lia. }
  rewrite (cons_middle current visited rest), app_assoc.
  destruct (startsWith [HASH] current).
  - rewrite <- Hlen, IH.
    destruct (reflowRest n rest); simpl; [|done].
    by rewrite <- app_assoc.
  - rewrite (reflowWhile_tail _ (length visited)) by lia.
    destruct (moveTails (length current) current rest) as [[c rest']|];
      simpl; [|done].
    rewrite <- Hlen, IH.
    destruct (reflowRest n rest'); simpl; [|done].
    by rewrite <- app_assoc.
Qed.

(** [reflowContent] is the result of the loops, whatever the rounds allowed. *)
Lemma reflowContent_rest fuel content out :
  reflowRest fuel content = Some out -> reflowContent content = out.
Proof.
  intros H. unfold reflowContent.
  rewrite (reflowFor_rest _ 0 [] content []) by done.
  destruct (reflowRest_total (reflowFuel content) content (le_n _)) as [o Ho].
  rewrite Ho. simpl.
  pose proof (reflowRest_more _ (fuel + reflowFuel content) _ _ H ltac:(lia)) as H1.
  pose proof (reflowRest_more _ (fuel + reflowFuel content) _ _ Ho ltac:(lia)) as H2.
  congruence.
Qed.

Lemma reflowContent_nil : reflowContent [] = [].
Proof. done. Qed.

(** A slot that is a heading when the loop reaches it is pushed as it is. *)
Lemma reflowContent_heading current rest :
  startsWith [HASH] current = true ->
  reflowContent (current :: rest) = current :: reflowContent rest.
Proof.
  intros Hh.
  destruct (reflowRest_total _ (current :: rest) (le_n _)) as [out Hout].
  rewrite (reflowContent_rest _ _ _ Hout).
  rewrite reflowFuel_cons in Hout. cbn [reflowRest] in Hout. rewrite Hh in Hout.
  destruct (reflowRest _ rest) as [o|] eqn:E; [|done].
  injection Hout as <-. by rewrite (reflowContent_rest _ _ _ E).
Qed.

(** Any other slot goes through the [while] loop, and the loop goes on with
    the slots that follow, as the [while] loop left them. *)
Lemma reflowContent_body current rest c rest' :
  startsWith [HASH] current = false ->
  moveTails (length current) current rest = Some (c, rest') ->
  reflowContent (current :: rest) = c :: reflowContent rest'.
Proof.
  intros Hh Hm.
  destruct (reflowRest_total _ (current :: rest) (le_n _)) as [out Hout].
  rewrite (reflowContent_rest _ _ _ Hout).
  rewrite reflowFuel_cons in Hout. cbn [reflowRest] in Hout.
  rewrite Hh, Hm in Hout.
  destruct (reflowRest _ rest') as [o|] eqn:E; [|done].
  injection Hout as <-. by rewrite (reflowContent_rest _ _ _ E).
Qed.

(** Induction along the run of [reflowContent]. *)
Lemma reflowContent_run (P : list jsstring -> list jsstring -> Prop) :
  P [] [] ->
  (forall current rest,
      startsWith [HASH] current = true ->
      P rest (reflowContent rest) ->
      P (current :: rest) (current :: reflowContent rest)) ->
  (forall current rest c rest',
      startsWith [HASH] current = false ->
      moveTails (length current) current rest = Some (c, rest') ->
      P rest' (reflowContent rest') ->
      P (current :: rest) (c :: reflowContent rest')) ->
  forall content, P content (reflowContent content).
Proof.
  intros Hnil Hhead Hbody content.
  remember (reflowFuel content) as w eqn:Hw.
  revert content Hw. induction (lt_wf w) as [w _ IH]. intros content ->.
  destruct content as [|current rest]; [by rewrite reflowContent_nil|].
  destruct (startsWith [HASH] current) eqn:Hh.
  - rewrite (reflowContent_heading _ _ Hh). apply Hhead; [done|].
    apply (IH (reflowFuel rest)); [rewrite reflowFuel_cons; lia|done].
  - destruct (moveTails_spec (length current) current rest (le_n _))
      as (c & rest' & Heq & _).
    rewrite (reflowContent_body _ _ _ _ Hh Heq). apply (Hbody _ _ _ _ Hh Heq).
    apply (IH (reflowFuel rest')); [|done].
    exact (moveTails_lighter _ _ _ _ _ (le_n _) Heq).
Qed.

End Reflow.

(** ** Properties of the reflow engine *)

Section ReflowProperties.

Implicit Types (current : jsstring) (rest content : list jsstring).

Lemma loopExit_settled current : loopExit current -> settled current = true.
Proof.
  unfold loopExit, settled. intros [H|H]; apply Nat.leb_le in H; rewrite H;
    by rewrite ?orb_true_r.
Qed.

Lemma moveTails_settled fuel current rest :
  startsWith [HASH] current = false -> settled current = true ->
  moveTails fuel current rest = Some (current, rest).
Proof.
  unfold settled. intros -> H. simpl in H.
  destruct fuel; cbn [moveTails];
    destruct (length current <=? MAX_CHARS_PER_PARA)%nat; try done;
    simpl in H; by rewrite H.
Qed.

(** Slots that are settled are pushed one by one as they are. *)
Lemma reflowContent_settled (done_ : list jsstring) rest :
  Forall (fun s => settled s = true) done_ ->
  reflowContent (done_ ++ rest) = done_ ++ reflowContent rest.
Proof.
  induction 1 as [|current l Hs _ IH]; [done|]. simpl.
  destruct (startsWith [HASH] current) eqn:Hh.
  - by rewrite reflowContent_heading, IH.
  - rewrite (reflowContent_body _ _ current (l ++ rest) Hh), IH; [done|].
    by apply moveTails_settled.
Qed.

(** Every slot of the output is settled. *)
Lemma reflowContent_all_settled content :
  Forall (fun s => settled s = true) (reflowContent content).
Proof.
  apply (reflowContent_run (fun _ out => Forall (fun s => settled s = true) out)).
  - constructor.
  - intros current rest Hh IH. constructor; [|done].
    unfold settled. by rewrite Hh.
  - intros current rest c rest' Hh Hm IH. constructor; [|done].
    apply loopExit_settled.
    by destruct (moveTails_inv _ _ _ _ _ (le_n _) Hm).
Qed.

Lemma concat_prependTo moved rest :
  concat (prependTo moved rest) = moved ++ concat rest.
Proof. destruct rest; simpl; by rewrite <- ?app_assoc. Qed.

(** Where no paragraph begins with a sentence-boundary character, the
    reflow engine keeps the text character for character. *)
Lemma reflowContent_verbatim content :
  Forall (fun s => noLeadingBoundary s = true) content ->
  concat (reflowContent content) = concat content.
Proof.
  apply (reflowContent_run (fun xs out =>
    Forall (fun s => noLeadingBoundary s = true) xs -> concat out = concat xs)).
  - done.
  - intros current rest _ IH Hall. inversion Hall; subst.
    simpl. by rewrite IH.
  - intros current rest c rest' _ Hm IH Hall. inversion Hall as [|? ? Hc Hrest]; subst.
    destruct (moveTails_inv _ _ _ _ _ (le_n _) Hm) as [_ Hcases].
    destruct Hcases as [[-> ->]|(moved & Hm1 & Hm2 & _ & _ & Hcm & ->)].
    + simpl. by rewrite IH.
    + simpl. rewrite IH.
      * rewrite concat_prependTo, app_assoc, Hcm.
        by rewrite (dropWhile_noLeadingBoundary _ Hc).
      * destruct rest as [|next rest]; simpl.
        -- by constructor.
        -- inversion Hrest; subst. constructor; [|done].
           by apply noLeadingBoundary_app.
Qed.

(** Given rounds enough, the [for] loop ends with [reflowContent]. *)
Lemma reflowFor_enough content fuel :
  (reflowFuel content <= fuel)%nat ->
  reflowFor fuel 0 content [] = Some (reflowContent content).
Proof.
  intros Hfuel. rewrite (reflowFor_rest _ 0 [] content []) by done.
  destruct (reflowRest_total fuel content Hfuel) as [out Hout].
  rewrite Hout. simpl. by rewrite (reflowContent_rest _ _ _ Hout).
Qed.

(** A round of the loop is a round of [reflowFor]. *)
Lemma reflowFor_round fuel i (buffer refined buffer' refined' : list jsstring) :
  reflowRound i buffer refined = Some (buffer', refined') ->
  reflowFor (S fuel) i buffer refined = reflowFor fuel (i + 1) buffer' refined'.
Proof.
  unfold reflowRound. cbn [reflowFor].
  destruct (buffer !! i) as [current|]; [|done].
  destruct (startsWith [HASH] current); [by intros [= <- <-]|].
  destruct (reflowWhile _ _ _ _) as [[c b]|]; [|done]. by intros [= <- <-].
Qed.

Lemma reflowFor_rounds n fuel i (buffer refined buffer' refined' : list jsstring) :
  reflowRounds n i buffer refined = Some (buffer', refined') ->
  reflowFor (n + fuel) i buffer refined
  = reflowFor fuel (i + n) buffer' refined'.
Proof.
  revert i buffer refined. induction n as [|n IH]; intros i buffer refined.
  - simpl. intros [= <- <-]. by rewrite Nat.add_0_r.
  - cbn [reflowRounds].
    destruct (reflowRound i buffer refined) as [[b r]|] eqn:E; [|done].
    intros H. cbn [Nat.add]. rewrite (reflowFor_round _ _ _ _ _ _ E).
    rewrite (IH _ _ _ H). f_equal. lia.
Qed.

Lemma reflowRounds_next n i (buffer refined buffer' refined' : list jsstring) :
  reflowRounds n i buffer refined = Some (buffer', refined') ->
  reflowRounds (S n) i buffer refined
  = reflowRounds 1 (i + n) buffer' refined'.
Proof.
  revert i buffer refined. induction n as [|n IH]; intros i buffer refined.
  - simpl. intros [= <- <-]. by rewrite Nat.add_0_r.
  - intros H. cbn [reflowRounds] in H.
    change (reflowRounds (S (S n)) i buffer refined)
      with (match reflowRound i buffer refined with
            | None => None
            | Some (b, r) => reflowRounds (S n) (i + 1) b r
            end).
    destruct (reflowRound i buffer refined) as [[b r]|]; [|done].
    rewrite (IH _ _ _ H). f_equal. lia.
Qed.

Lemma reflowRounds_length n i (buffer refined buffer' refined' : list jsstring) :
  reflowRounds n i buffer refined = Some (buffer', refined') ->
  length refined' = (length refined + n)%nat.
Proof.
  revert i buffer refined. induction n as [|n IH]; intros i buffer refined.
  - simpl. intros [= <- <-]. lia.
  - cbn [reflowRounds].
    destruct (reflowRound i buffer refined) as [[b r]|] eqn:E; [|done].
    intros H. rewrite (IH _ _ _ H).
    unfold reflowRound in E. destruct (buffer !! i) as [current|]; [|done].
    destruct (startsWith [HASH] current).
    + injection E as <- <-. rewrite length_app. simpl. lia.
    + destruct (reflowWhile _ _ _ _) as [[c b0]|]; [|done].
      injection E as <- <-. rewrite length_app. simpl. lia.
Qed.

(** The rounds up to any slot of the input are run: the [while] loop of
    each ends, and the buffer never gets shorter. *)
Lemma reflowRounds_total n i (buffer refined : list jsstring) :
  (i + n <= length buffer)%nat ->
  exists buffer' refined',
    reflowRounds n i buffer refined = Some (buffer', refined')
    /\ (length buffer <= length buffer')%nat.
Proof.
  revert i buffer refined. induction n as [|n IH]; intros i buffer refined Hi.
  - by exists buffer, refined.
  - cbn [reflowRounds]. unfold reflowRound.
    destruct (lookup_lt_is_Some_2 buffer i ltac:(lia)) as [current Hc].
    rewrite Hc. destruct (startsWith [HASH] current).
    + destruct (IH (i + 1)%nat buffer (refined ++ [current]) ltac:(lia))
        as (b & r & Hr & Hlen).
      by exists b, r.
    + replace (reflowWhile (length current) i current buffer)
        with (reflowWhile (length current) i current
                (take (S i) buffer ++ drop (S i) buffer))
        by (by rewrite take_drop).
      rewrite (reflowWhile_tail _ i)
        by (rewrite length_take; apply lookup_lt_Some in Hc; lia).
      destruct (moveTails_spec (length current) current (drop (S i) buffer)
                  (le_n _)) as (c & rest' & Heq & _ & Hcases).
      rewrite Heq. simpl.
      assert (Hgrow : (length buffer
                       <= length (take (S i) buffer ++ rest'))%nat).
      { pose proof (f_equal (@length jsstring) (take_drop (S i) buffer))
          as Hsplit.
        rewrite length_app in Hsplit. rewrite length_app.
        destruct Hcases as [[_ ->]|(moved & _ & _ & _ & _ & _ & ->)]; [lia|].
        destruct (drop (S i) buffer); simpl in *; lia. }
      destruct (IH (i + 1)%nat (take (S i) buffer ++ rest') (refined ++ [c])
                  ltac:(lia)) as (b & r & Hr & Hlen).
      exists b, r. split; [done|lia].
Qed.

(** A slot that is a heading when the loop reaches it: the round pushes it
    and leaves the buffer as it is, and the output is what was pushed
    before, the heading, and the output for the slots behind it. *)
Lemma heading_reached content i (buffer refined : list jsstring) (h : jsstring) :
  reflowRounds i 0 content [] = Some (buffer, refined) ->
  buffer !! i = Some h ->
  startsWith [HASH] h = true ->
  reflowRounds (S i) 0 content [] = Some (buffer, refined ++ [h])
  /\ reflowContent content
     = refined ++ h :: reflowContent (drop (S i) buffer)
  /\ reflowContent content !! i = Some h.
Proof.
  intros Hrounds Hh Hhead.
  pose proof (reflowRounds_length _ _ _ _ _ _ Hrounds) as Hlen. simpl in Hlen.
  assert (Hout : reflowContent content
                 = refined ++ h :: reflowContent (drop (S i) buffer)).
  { pose proof (reflowFor_enough content (i + reflowFuel content) ltac:(lia))
      as Hrun.
    rewrite (reflowFor_rounds _ _ _ _ _ _ _ Hrounds) in Hrun. simpl in Hrun.
    rewrite <- (take_drop i buffer) in Hrun.
    rewrite reflowFor_rest in Hrun
      by (rewrite length_take; apply lookup_lt_Some in Hh; lia).
    rewrite (drop_S _ _ _ Hh) in Hrun.
    destruct (reflowFuel content) as [|k]; [done|].
    cbn [reflowRest] in Hrun. rewrite Hhead in Hrun.
    destruct (reflowRest k (drop (S i) buffer)) as [out|] eqn:E; [|done].
    simpl in Hrun. injection Hrun as Hrun. rewrite <- Hrun.
    by rewrite (reflowContent_rest _ _ _ E). }
  repeat split.
  - rewrite (reflowRounds_next _ _ _ _ _ _ Hrounds). simpl.
    unfold reflowRound. by rewrite Hh, Hhead.
  - done.
  - rewrite Hout, lookup_app_r by lia.
    by replace (i - length refined)%nat with 0%nat by lia.
Qed.

End ReflowProperties.

(** ** The paginator loop *)

Section Paginator.

Implicit Types (p paragraph : jsstring) (page chunk : list jsstring).
Implicit Types (st : PagState).

(** The slide whose content is being paginated. *)
Variable slide : SlideData.

Lemma relIndex_nonneg len k : 0 <= len -> 0 <= k -> relIndex len k = Z.min k len.
Proof. intros _ Hk. unfold relIndex. destruct (Z.ltb_spec k 0); [lia|done]. Qed.

(** [slice(0, k)] and [slice(k)] for a non-negative [k] cut the string in
    two at [k]. *)
Lemma slice_prefix p k : 0 <= k -> slice p 0 k = take (Z.to_nat k) p.
Proof.
  intros Hk. unfold slice. rewrite !relIndex_nonneg by lia.
  rewrite (Z.min_l 0) by lia. change (Z.to_nat 0) with 0%nat.
  rewrite drop_0, Z.sub_0_r.
  destruct (Z.le_ge_cases k (Z.of_nat (length p))).
  - by rewrite Z.min_l.
  - rewrite Z.min_r, Nat2Z.id by done.
    by rewrite !take_ge by lia.
Qed.

Lemma slice_suffix p k : 0 <= k -> sliceFrom p k = drop (Z.to_nat k) p.
Proof.
  intros Hk. unfold sliceFrom, slice. rewrite !relIndex_nonneg by lia.
  rewrite Z.min_id.
  destruct (Z.le_ge_cases k (Z.of_nat (length p))).
  - rewrite Z.min_l by done. apply take_ge. rewrite length_drop. lia.
  - rewrite Z.min_r, Nat2Z.id by done.
    rewrite !drop_ge by lia. by rewrite take_nil.
Qed.

Lemma startsWith_hash_cons p :
  startsWith [HASH] p = false ->
  startsWith [HASH; HASH; SPACE] p = false
  /\ startsWith [HASH; HASH; HASH; SPACE] p = false.
Proof.
  destruct p as [|c p]; [done|]. cbn [startsWith].
  rewrite andb_true_r. by intros ->.
Qed.

Lemma startsWith_hash_take p k :
  startsWith [HASH] p = false -> startsWith [HASH] (take k p) = false.
Proof. destruct p, k; done. Qed.

Lemma ceilDiv_bounds a : 0 <= a ->
  CHARS_PER_LINE * (ceilDiv a CHARS_PER_LINE - 1) < a
  <= CHARS_PER_LINE * ceilDiv a CHARS_PER_LINE.
Proof.
  intros Ha. unfold ceilDiv, CHARS_PER_LINE.
  pose proof (Z.div_mod (a + 22 - 1) 22 ltac:(lia)).
  pose proof (Z.mod_pos_bound (a + 22 - 1) 22 ltac:(lia)). lia.
Qed.

Lemma getLineCost_nonneg p : 0 <= getLineCost p.
Proof.
  unfold getLineCost.
  destruct (startsWith [HASH; HASH; SPACE] p); [lia|].
  destruct (startsWith [HASH; HASH; HASH; SPACE] p); [lia|].
  destruct (trim p); [lia|].
  pose proof (ceilDiv_bounds (Z.of_nat (length p)) ltac:(lia)).
  unfold CHARS_PER_LINE in *. lia.
Qed.

(** The cost of a paragraph that is no heading: nothing for a blank one,
    else its lines and one line of margin. *)
Lemma getLineCost_text p :
  startsWith [HASH] p = false ->
  getLineCost p = 0
  \/ getLineCost p = ceilDiv (Z.of_nat (length p)) CHARS_PER_LINE + 1.
Proof.
  intros Hh. destruct (startsWith_hash_cons p Hh) as [H2 H3].
  unfold getLineCost. rewrite H2, H3. destruct (trim p); auto.
Qed.

Lemma totalCost_app page page' :
  totalCost (page ++ page') = totalCost page + totalCost page'.
Proof. induction page as [|p page IH]; simpl; [done|]. rewrite IH. lia. Qed.

Lemma totalCost_nonneg page : 0 <= totalCost page.
Proof.
  induction page as [|p page IH]; simpl; [done|].
  pose proof (getLineCost_nonneg p). lia.
Qed.

(** A non-heading paragraph that overflows a page with room left is longer
    than the room: the cut gives a full first part within the room and a
    non-empty second part. *)
Lemma split_parts p used :
  startsWith [HASH] p = false ->
  MAX_LINES_PER_PAGE < used + getLineCost p ->
  2 <= MAX_LINES_PER_PAGE - used ->
  let maxChars := (MAX_LINES_PER_PAGE - used - 1) * CHARS_PER_LINE in
  slice p 0 maxChars ++ sliceFrom p maxChars = p
  /\ Z.of_nat (length (slice p 0 maxChars)) = maxChars
  /\ sliceFrom p maxChars <> []
  /\ getLineCost (slice p 0 maxChars) <= MAX_LINES_PER_PAGE - used.
Proof.
  intros Hh Hover Hroom maxChars.
  assert (Hk : 0 <= maxChars) by (unfold maxChars, CHARS_PER_LINE; lia).
  rewrite slice_prefix, slice_suffix by done.
  assert (Hlen : maxChars < Z.of_nat (length p)).
  { destruct (getLineCost_text p Hh) as [H0|H0]; rewrite H0 in Hover; [lia|].
    pose proof (ceilDiv_bounds (Z.of_nat (length p)) ltac:(lia)).
    unfold maxChars, CHARS_PER_LINE in *. lia. }
  assert (Htake : Z.of_nat (length (take (Z.to_nat maxChars) p)) = maxChars).
  { rewrite length_take. lia. }
  repeat split.
  - apply take_drop.
  - done.
  - intros Hnil. apply (f_equal length) in Hnil.
    rewrite length_drop in Hnil. simpl in Hnil. lia.
  - destruct (getLineCost_text (take (Z.to_nat maxChars) p)) as [H0|H0];
      [by apply startsWith_hash_take|rewrite H0; lia|].
    rewrite H0, Htake.
    pose proof (ceilDiv_bounds maxChars Hk).
    unfold maxChars, CHARS_PER_LINE in *. lia.
Qed.

Lemma pageOk_single p : pageOk [p].
Proof.
  unfold pageOk. simpl.
  destruct (Z.le_gt_cases (getLineCost p) MAX_LINES_PER_PAGE); [left; lia|].
  right. by exists p.
Qed.

Lemma map_content_flush st :
  map content (flush slide st)
  = map content (paginatedSlides st) ++ [currentChunk st].
Proof. unfold flush. by rewrite map_app. Qed.

Lemma paginateStep_inv seen st paragraph :
  pagInv seen st -> pagInv (seen ++ paragraph) (paginateStep slide st paragraph).
Proof.
  intros [Hpages Hne Hused Hchunk Htext]. unfold paginateStep.
  pose proof (getLineCost_nonneg paragraph) as Hcost.
  pose proof (totalCost_nonneg (currentChunk st)) as Hpos.
  destruct (currentLinesUsed st + getLineCost paragraph <=? MAX_LINES_PER_PAGE)
    eqn:Efit.
  { apply Z.leb_le in Efit. split; simpl; try done.
    - rewrite totalCost_app. simpl. lia.
    - left. rewrite totalCost_app. simpl. lia.
    - rewrite concat_app, app_assoc, Htext. simpl. by rewrite app_nil_r. }
  apply Z.leb_gt in Efit.
  assert (Hflush : Forall pageOk (map content (flush slide st))).
  { rewrite map_content_flush. apply Forall_app. split; [done|]. by constructor. }
  assert (Hflushne : currentChunk st <> [] ->
            Forall (fun page => page <> []) (map content (flush slide st))).
  { intros H. rewrite map_content_flush. apply Forall_app. split; [done|].
    by constructor. }
  assert (Hflushtext :
            concat (concat (map content (flush slide st))) ++ concat [paragraph]
            = seen ++ paragraph).
  { rewrite map_content_flush, concat_app, concat_app. simpl.
    rewrite !app_nil_r. by rewrite Htext. }
  destruct (startsWith [HASH] paragraph) eqn:Ehead.
  { destruct (currentChunk st) as [|q chunk] eqn:Echunk.
    - split; simpl; try done; [simpl; lia|apply pageOk_single|].
      rewrite <- Htext. by rewrite !app_nil_r.
    - split; simpl; try done; [by apply Hflushne|simpl; lia|apply pageOk_single]. }
  destruct (MAX_LINES_PER_PAGE - currentLinesUsed st <=? 1) eqn:Eroom.
  { apply Z.leb_le in Eroom. split; simpl; try done;
      [|simpl; lia|apply pageOk_single].
    apply Hflushne. intros Hnil. rewrite Hnil in Hused. simpl in Hused.
    unfold MAX_LINES_PER_PAGE in *. lia. }
  apply Z.leb_gt in Eroom.
  destruct (split_parts paragraph (currentLinesUsed st) Ehead Efit ltac:(lia))
    as (Hcat & Hfull & Hrest & Hpart1).
  split; simpl.
  - rewrite map_content_flush. simpl. apply Forall_app. split; [done|].
    constructor; [|done]. left. rewrite totalCost_app. simpl. lia.
  - rewrite map_content_flush. simpl. apply Forall_app. split; [done|].
    constructor; [|done]. by destruct (currentChunk st).
  - lia.
  - apply pageOk_single.
  - rewrite map_content_flush. simpl.
    rewrite !concat_app. simpl. rewrite !app_nil_r.
    rewrite concat_app. simpl. rewrite app_nil_r.
    rewrite <- Htext, <- !app_assoc. by rewrite Hcat.
Qed.

Lemma paginate_loop_inv reflowedContent seen st :
  pagInv seen st ->
  pagInv (seen ++ concat reflowedContent)
    (fold_left (paginateStep slide) reflowedContent st).
Proof.
  revert seen st. induction reflowedContent as [|p ps IH]; intros seen st Hinv.
  - simpl. by rewrite app_nil_r.
  - simpl. rewrite app_assoc. apply IH. by apply paginateStep_inv.
Qed.

Lemma pagInv_start : pagInv [] (mkPag [] [] 0).
Proof.
  split; simpl; [constructor|constructor|done| |done].
  left. simpl. unfold MAX_LINES_PER_PAGE. lia.
Qed.

(** The pages of a paragraph list: each is in order and non-empty, and
    together they hold the text of the list. *)
Lemma pagesOf_inv reflowedContent :
  Forall pageOk (pagesOf slide reflowedContent)
  /\ Forall (fun page => page <> []) (pagesOf slide reflowedContent)
  /\ concat (concat (pagesOf slide reflowedContent)) = concat reflowedContent.
Proof.
  unfold pagesOf, paginate.
  destruct (paginate_loop_inv reflowedContent [] _ pagInv_start)
    as [Hpages Hne Hused Hchunk Htext].
  simpl in Htext.
  destruct (fold_left (paginateStep slide) reflowedContent (mkPag [] [] 0))
    as [pages chunk used]; simpl in *.
  destruct chunk as [|q chunk]; simpl.
  - rewrite app_nil_r in Htext. done.
  - rewrite map_content_flush. simpl. repeat split.
    + apply Forall_app. split; [done|]. by constructor.
    + apply Forall_app. split; [done|]. by constructor.
    + rewrite concat_app, concat_app. simpl. by rewrite !app_nil_r.
Qed.

(** A paragraph that stands whole stays whole: pages are only added, and a
    chunk is pushed as it is. *)
Lemma placed_step st paragraph x :
  placed st x -> placed (paginateStep slide st paragraph) x.
Proof.
  assert (Hflush : forall st', placed st' x ->
            exists page, In page (map content (flush slide st')) /\ In x page).
  { intros st' [(page & Hin & Hx)|Hx]; rewrite map_content_flush.
    - exists page. split; [|done]. apply in_or_app. by left.
    - exists (currentChunk st'). split; [|done]. apply in_or_app. right. by left. }
  intros Hx. unfold paginateStep.
  destruct (_ <=? _).
  { destruct Hx as [Hx|Hx]; [by left|]. right. simpl. apply in_or_app. by left. }
  destruct (startsWith [HASH] paragraph).
  { destruct (currentChunk st) as [|q chunk] eqn:E; simpl.
    - destruct Hx as [Hx|Hx]; [by left|]. by rewrite E in Hx.
    - left. by apply Hflush. }
  destruct (_ <=? 1); simpl.
  { left. by apply Hflush. }
  left. apply Hflush. destruct Hx as [Hx|Hx]; [by left|].
  right. simpl. apply in_or_app. by left.
Qed.

(** A heading is never cut: it goes whole into the chunk. *)
Lemma placed_heading st h :
  startsWith [HASH] h = true -> placed (paginateStep slide st h) h.
Proof.
  intros Hh. unfold paginateStep. rewrite Hh. right.
  destruct (_ <=? _); simpl; [|by left].
  apply in_or_app. right. by left.
Qed.

Lemma placed_loop reflowedContent st x :
  placed st x -> placed (fold_left (paginateStep slide) reflowedContent st) x.
Proof.
  revert st. induction reflowedContent as [|p ps IH]; intros st Hx; [done|].
  simpl. apply IH. by apply placed_step.
Qed.

Lemma heading_on_a_page reflowedContent h :
  In h reflowedContent -> startsWith [HASH] h = true ->
  exists page, In page (pagesOf slide reflowedContent) /\ In h page.
Proof.
  intros Hin Hh.
  assert (Hplaced : forall st,
            placed (fold_left (paginateStep slide) reflowedContent st) h).
  { induction reflowedContent as [|p ps IH]; [done|]. intros st. simpl.
    destruct Hin as [->|Hin]; [|by apply IH].
    apply placed_loop. by apply placed_heading. }
  specialize (Hplaced (mkPag [] [] 0)).
  unfold pagesOf, paginate.
  destruct (fold_left (paginateStep slide) reflowedContent (mkPag [] [] 0))
    as [pages chunk used].
  destruct Hplaced as [Hpage|Hchunk]; simpl in *.
  - destruct Hpage as (page & Hpage & Hx). exists page. split; [|done].
    destruct chunk; simpl; [done|].
    rewrite map_content_flush. apply in_or_app. by left.
  - destruct chunk as [|q chunk]; [done|]. simpl.
    exists (q :: chunk). split; [|done].
    rewrite map_content_flush. apply in_or_app. right. by left.
Qed.

(** Each round pushes one page at most. *)
Lemma paginateStep_pages st paragraph :
  (length (paginatedSlides (paginateStep slide st paragraph))
   <= S (length (paginatedSlides st)))%nat.
Proof.
  unfold paginateStep, flush.
  repeat (destruct (_ <=? _) || destruct (startsWith _ _)
          || destruct (_ <? _)%nat);
    simpl; rewrite ?length_app; simpl; lia.
Qed.

Lemma paginate_pages reflowedContent pushed :
  (length (paginate slide reflowedContent pushed)
   <= length pushed + length reflowedContent + 1)%nat.
Proof.
  unfold paginate.
  assert (H : forall st,
    (length (paginatedSlides (fold_left (paginateStep slide) reflowedContent st))
     <= length (paginatedSlides st) + length reflowedContent)%nat).
  { induction reflowedContent as [|p ps IH]; intros st; simpl; [lia|].
    pose proof (IH (paginateStep slide st p)).
    pose proof (paginateStep_pages st p). lia. }
  specialize (H (mkPag pushed [] 0)). simpl in H.
  destruct (_ <? _)%nat; unfold flush; rewrite ?length_app; simpl; lia.
Qed.

End Paginator.

(** ** Numbering *)

Section Numbering.

Implicit Types (slides : list SlideData) (slide : SlideData).

Lemma imap_field {B} (g : SlideData -> B) (h : nat -> B)
    (f : nat -> SlideData -> SlideData) slides k :
  (forall i slide, g (f i slide) = h (k + i)%nat) ->
  map g (imap f slides) = map h (seq k (length slides)).
Proof.
  revert f k. induction slides as [|slide slides IH]; intros f k Hf; [done|].
  simpl. rewrite Hf, Nat.add_0_r. f_equal.
  apply IH. intros i s. unfold compose. rewrite Hf. f_equal. lia.
Qed.

Lemma imap_same_field {B} (g : SlideData -> B)
    (f : nat -> SlideData -> SlideData) slides :
  (forall i slide, g (f i slide) = g slide) ->
  map g (imap f slides) = map g slides.
Proof.
  revert f. induction slides as [|slide slides IH]; intros f Hf; [done|].
  simpl. rewrite Hf. f_equal. apply IH. intros i s. apply Hf.
Qed.

(** The finishing pass numbers the slides [1 .. N] in order. *)
Lemma finishingPass_numbers clock slides :
  map pageNumber (finishingPass clock slides)
  = map (fun k => Some (Z.of_nat k)) (seq 1 (length slides)).
Proof.
  unfold finishingPass.
  rewrite (imap_field pageNumber (fun k => Some (Z.of_nat k + 1)) _ _ 0%nat)
    by done.
  rewrite <- (seq_shift _ 0), map_map. apply map_ext. intros k. f_equal. lia.
Qed.

(** The finishing pass gives every slide the number of slides as total. *)
Lemma finishingPass_totals clock slides :
  Forall (fun s => totalPages s = Some (Z.of_nat (length slides)))
    (finishingPass clock slides).
Proof.
  unfold finishingPass. apply List.Forall_forall. intros s Hs.
  apply (in_map totalPages) in Hs.
  rewrite (imap_field totalPages
             (fun _ => Some (Z.of_nat (length slides))) _ _ 0%nat) in Hs
    by done.
  apply in_map_iff in Hs as (k & Hk & _). done.
Qed.

Lemma reindexMap_length total k slides :
  length (reindexMap total k slides) = length slides.
Proof.
  revert k. induction slides as [|slide slides IH]; intros k; [done|].
  simpl. destruct (isCover slide); simpl; by rewrite IH.
Qed.

(** The slides that are no cover are numbered from [k + 1] on. *)
Lemma reindexMap_numbers total k slides :
  map pageNumber
    (List.filter (fun s => negb (isCover s)) (reindexMap total k slides))
  = map (fun i => Some (k + Z.of_nat i))
      (seq 1 (length (List.filter (fun s => negb (isCover s)) slides))).
Proof.
  revert k. induction slides as [|slide slides IH]; intros k; [done|].
  simpl. destruct (isCover slide) eqn:E; simpl.
  - unfold withTotalPages at 1, isCover at 1. simpl.
    unfold isCover in E. rewrite E. simpl. apply IH.
  - unfold withPageNumbers at 1, isCover at 1. simpl.
    unfold isCover in E. rewrite E. simpl. f_equal.
    rewrite IH, <- (seq_shift _ 1), map_map.
    apply map_ext. intros i. f_equal. lia.
Qed.

Lemma reindexMap_total total k slides :
  Forall (fun s => totalPages s = Some total) (reindexMap total k slides).
Proof.
  revert k. induction slides as [|slide slides IH]; intros k; [constructor|].
  simpl. destruct (isCover slide); constructor; try done; apply IH.
Qed.

(** Renumbering writes [totalPages], and [pageNumber] except on a cover. *)
Lemma reindexMap_frame total k slides :
  Forall2 (fun s s' =>
             sameOtherFields s s'
             /\ (isCover s = true -> pageNumber s' = pageNumber s))
    slides (reindexMap total k slides).
Proof.
  revert k. induction slides as [|slide slides IH]; intros k; [constructor|].
  simpl. destruct (isCover slide) eqn:E; (constructor; [|apply IH]);
    (split; [by repeat split|intros H; first [reflexivity|congruence]]).
Qed.

Lemma filter_cover_split slides :
  (length (List.filter (fun s => negb (isCover s)) slides)
   + length (List.filter isCover slides))%nat
  = length slides.
Proof.
  induction slides as [|slide slides IH]; [done|].
  simpl. destruct (isCover slide); simpl; lia.
Qed.

End Numbering.

(** ** Paragraph ingestion *)

Section Ingestion.

(** Splitting at runs of newlines and dropping the blank pieces is
    splitting at every newline and dropping the blank pieces. *)
Lemma splitGo_lines (inRun : bool) (piece text : jsstring) :
  (inRun = true -> piece = []) ->
  List.filter nonBlank (splitGo inRun piece text)
  = List.filter nonBlank (splitAtNewline piece text).
Proof.
  revert inRun piece. induction text as [|c text IH]; intros inRun piece Hrun;
    [done|].
  simpl. destruct (c =? NEWLINE)%N.
  - destruct inRun.
    + rewrite (Hrun eq_refl). simpl. by apply IH.
    + simpl. destruct (nonBlank piece); [f_equal|]; by apply IH.
  - by apply IH.
Qed.

Lemma splitAtNewline_lines (piece text : jsstring) :
  ~ In NEWLINE piece ->
  Forall (fun l => ~ In NEWLINE l) (splitAtNewline piece text).
Proof.
  revert piece. induction text as [|c text IH]; intros piece Hp.
  - by constructor.
  - simpl. destruct (N.eqb_spec c NEWLINE) as [->|Hc].
    + constructor; [done|]. apply IH. intros [].
    + apply IH. intros Hin. apply in_app_or in Hin as [Hin|[Hin|[]]]; [done|].
      by subst.
Qed.

End Ingestion.

(** ** The scenarios of the specification *)

Section Scenarios.

(** ["A。B。C。D。E。"] repeated to 80 code units: two fragments or more,
    each within the budget, that together are the input. *)
Example scenario_reflow_splits :
  let input := concat (repeat [65; 12290; 66; 12290; 67; 12290; 68; 12290;
                               69; 12290]%N 8) in
  length input = 80%nat
  /\ map (@length N) (reflowContent [input]) = [68; 12]%nat
  /\ concat (reflowContent [input]) = input.
Proof. by vm_compute. Qed.

(** A paragraph of 22 * 18 code units costs 19 lines and fills an empty
    page exactly. *)
Example scenario_exact_fit :
  getLineCost (repeatChar 396 97) = 19
  /\ pagesOf (contentSlide []) [repeatChar 396 97] = [[repeatChar 396 97]].
Proof. by vm_compute. Qed.

(** A paragraph of cost 20 on an empty page is cut in two pages. *)
Example scenario_character_split :
  getLineCost (repeatChar 400 97) = 20
  /\ pagesOf (contentSlide []) [repeatChar 400 97]
     = [[repeatChar 396 97]; [repeatChar 4 97]].
Proof. by vm_compute. Qed.

(** A heading of cost 3 after 18 lines of 19: the page is pushed and the
    heading opens the next one. *)
Example scenario_heading_overflow :
  getLineCost (ofString "## Title") = 3
  /\ pagesOf (contentSlide []) [repeatChar 374 97; ofString "## Title"]
     = [[repeatChar 374 97]; [ofString "## Title"]].
Proof. by vm_compute. Qed.

(** A slot whose earlier spans begin with [#] is split like any other:
    fragments of 42, 41 and 40 code units. *)
Example scenario_hash_after_stop :
  map (@length N) (reflowContent [hashAfterStop]) = [42; 41; 40]%nat.
Proof. by vm_compute. Qed.

(** No paragraph, no page. *)
Example scenario_empty : pagesOf (contentSlide []) [] = [].
Proof. done. Qed.

(** A hundred code units without punctuation stay one fragment, over the
    character budget, and make one page of 6 lines. *)
Example scenario_no_punctuation :
  reflowContent [repeatChar 100 97] = [repeatChar 100 97]
  /\ pagesOf (contentSlide []) (reflowContent [repeatChar 100 97])
     = [[repeatChar 100 97]].
Proof. by vm_compute. Qed.

(** The answer of the server for a text of two lines, through pagination
    and the finishing pass: three slides, numbered 1 to 3 of 3, the cover
    first. *)
Example scenario_pipeline :
  let generatedData :=
    coverSlide (ofString "abc")
      :: map (fun para => contentSlide [para])
           (rawParagraphs (ofString "abc" ++ [NEWLINE] ++ ofString "## T")) in
  let slides := generateSlides (fun _ => 1700000000000%N) generatedData in
  map type slides = [ty_cover; ty_content; ty_content]
  /\ map pageNumber slides = [Some 1; Some 2; Some 3]
  /\ map totalPages slides = [Some 3; Some 3; Some 3]
  /\ map content slides = [[ofString "abc"]; [ofString "abc"]; [ofString "## T"]]
  /\ map id (take 1 slides) = [Some (ofString "slide-1700000000000-0")].
Proof. by vm_compute. Qed.

End Scenarios.

(** ** The claims *)

(** Where no paragraph of a slide begins with a sentence-boundary
    character, the pages made of the slide hold its text character for
    character. *)
Lemma verbatim_without_leading_boundary (slide : SlideData) :
  Forall (fun s => noLeadingBoundary s = true) (content slide) ->
  verbatim slide.
Proof.
  intros Hall. unfold verbatim, paginateSlide.
  destruct (negb (isContent slide) || (length (content slide) =? 0)%nat).
  - simpl. by rewrite app_nil_r.
  - destruct (pagesOf_inv slide (reflowContent (content slide))) as (_ & _ & H).
    unfold pagesOf in H. rewrite H. by apply reflowContent_verbatim.
Qed.

(** C1, verbatim preservation, at a paragraph that begins with a sentence
    boundary: the reflow engine splits the 82 code units of
    [leadingStopParagraph] into two fragments that hold 81 of them; the
    pages made of the slide hold the paragraph without its first code unit,
    so the text is not reconstructed. *)
Theorem verbatim_lost_at_leading_boundary :
  reflowContent [leadingStopParagraph]
  = [repeatChar 40 97 ++ ofString "."; repeatChar 40 98]
  /\ concat (concat (map content
                (paginateSlide [] (contentSlide [leadingStopParagraph]))))
     = drop 1 leadingStopParagraph
  /\ ~ verbatim (contentSlide [leadingStopParagraph]).
Proof.
  split; [by vm_compute|]. split; [by vm_compute|].
  unfold verbatim. vm_compute. discriminate.
Qed.

(** C2 as stated fails in both parts: after a long paragraph the heading
    ["## T"] of the input is not passed through, the last sentence is put in
    front of it; and the heading ["## U"], which still fits, is the third
    element of its page. *)
Lemma heading_isolation_fails :
  let input := [twoSentences; ofString "## T"; ofString "## U"] in
  pagesOf (contentSlide input) (reflowContent input)
  = [[repeatChar 40 97 ++ ofString ".";
      repeatChar 40 98 ++ ofString "## T";
      ofString "## U"]]
  /\ ~ headingsPassThrough input
  /\ ~ headingsOpenPages (contentSlide input) input
  /\ ~ headingIsolation (contentSlide input) input.
Proof.
  cbv zeta.
  set (input := [twoSentences; ofString "## T"; ofString "## U"]).
  assert (Hpages : pagesOf (contentSlide input) (reflowContent input)
                   = [[repeatChar 40 97 ++ ofString ".";
                       repeatChar 40 98 ++ ofString "## T";
                       ofString "## U"]]) by (by vm_compute).
  assert (Hpass : ~ headingsPassThrough input).
  { intros H. specialize (H (ofString "## T")).
    assert (Hin : In (ofString "## T") (reflowContent input))
      by (apply H; [right; by left|done]).
    vm_compute in Hin. destruct Hin as [Hin|[Hin|[Hin|[]]]]; discriminate. }
  assert (Hopen : ~ headingsOpenPages (contentSlide input) input).
  { unfold headingsOpenPages. rewrite Hpages. intros H.
    inversion H as [|? ? Hpage _]; subst.
    specialize (Hpage 2%nat (ofString "## U") eq_refl eq_refl). discriminate. }
  repeat split; try done. by intros [H _].
Qed.

(** C2, heading isolation, as the code has it.  Reflow: whenever the [for]
    loop, after [i] rounds on the input, reaches a slot that is
    heading-marked, that round pushes the slot unchanged and leaves the
    buffer as it is; the slot is the output at index [i], and the output is
    what was pushed before it, the slot, and the output for the slots behind
    it, nothing being put in front of them.  Paginator: a heading that fits
    is appended to the current chunk, a heading that does not fit becomes
    the first element of a new chunk, after the chunk, when not empty, was
    pushed as a page; and a heading of the paginator's input is never cut,
    it stands whole on one of the pages. *)
Theorem heading_isolation_amended (slide : SlideData) (st : PagState)
    (input buffer refined reflowedContent : list jsstring) (i : nat)
    (h : jsstring) :
  startsWith [HASH] h = true ->
  reflowRounds i 0 input [] = Some (buffer, refined) ->
  buffer !! i = Some h ->
  In h reflowedContent ->
  reflowRounds (S i) 0 input [] = Some (buffer, refined ++ [h])
  /\ reflowContent input !! i = Some h
  /\ reflowContent input
     = refined ++ h :: reflowContent (drop (S i) buffer)
  /\ paginateStep slide st h
     = (if currentLinesUsed st + getLineCost h <=? MAX_LINES_PER_PAGE
        then mkPag (paginatedSlides st) (currentChunk st ++ [h])
               (currentLinesUsed st + getLineCost h)
        else mkPag
               (match currentChunk st with
                | [] => paginatedSlides st
                | _ :: _ =>
                    paginatedSlides st ++ [withContent slide (currentChunk st)]
                end)
               [h] (getLineCost h))
  /\ map content (paginatedSlides (paginateStep slide st h))
     = (if currentLinesUsed st + getLineCost h <=? MAX_LINES_PER_PAGE
        then map content (paginatedSlides st)
        else match currentChunk st with
             | [] => map content (paginatedSlides st)
             | _ :: _ => map content (paginatedSlides st) ++ [currentChunk st]
             end)
  /\ exists page, In page (pagesOf slide reflowedContent) /\ In h page.
Proof.
  intros Hh Hrounds Hslot Hin.
  destruct (heading_reached input i buffer refined h Hrounds Hslot Hh)
    as (Hnext & Hout & Hat).
  assert (Hstep : paginateStep slide st h
     = (if currentLinesUsed st + getLineCost h <=? MAX_LINES_PER_PAGE
        then mkPag (paginatedSlides st) (currentChunk st ++ [h])
               (currentLinesUsed st + getLineCost h)
        else mkPag
               (match currentChunk st with
                | [] => paginatedSlides st
                | _ :: _ =>
                    paginatedSlides st ++ [withContent slide (currentChunk st)]
                end)
               [h] (getLineCost h))).
  { unfold paginateStep. rewrite Hh. destruct (_ <=? _); [done|].
    unfold flush. by destruct (currentChunk st). }
  repeat split; try done.
  - rewrite Hstep. destruct (_ <=? _); [done|].
    destruct (currentChunk st); [done|]. simpl. by rewrite map_app.
  - by apply heading_on_a_page.
Qed.

Lemma heading_isolation_amended_witness :
  let slide := contentSlide [] in
  let st := mkPag [] [repeatChar 396 97] 19 in
  let h := ofString "## T" in
  let input := [twoSentences; ofString "x"; h] in
  let buffer := [twoSentences; repeatChar 40 98 ++ ofString "x"; h] in
  let refined :=
    [repeatChar 40 97 ++ ofString "."; repeatChar 40 98 ++ ofString "x"] in
  reflowRounds 3 0 input [] = Some (buffer, refined ++ [h])
  /\ reflowContent input !! 2%nat = Some h
  /\ reflowContent input = refined ++ h :: reflowContent (drop 3 buffer)
  /\ paginateStep slide st h
     = mkPag [withContent slide [repeatChar 396 97]] [h] 3
  /\ map content (paginatedSlides (paginateStep slide st h))
     = [[repeatChar 396 97]]
  /\ exists page, In page (pagesOf slide [ofString "abc"; h]) /\ In h page.
Proof.
  apply (heading_isolation_amended (contentSlide [])
           (mkPag [] [repeatChar 396 97] 19)
           [twoSentences; ofString "x"; ofString "## T"]
           [twoSentences; repeatChar 40 98 ++ ofString "x"; ofString "## T"]
           [repeatChar 40 97 ++ ofString ".";
            repeatChar 40 98 ++ ofString "x"]
           [ofString "abc"; ofString "## T"] 2 (ofString "## T")).
  - reflexivity.
  - vm_compute. reflexivity.
  - reflexivity.
  - right. left. reflexivity.
Defined.

(** C3, budget respect: every page the paginator makes of a paragraph list
    costs at most [MAX_LINES_PER_PAGE] lines, or else it is the page of one
    paragraph whose own cost exceeds the budget; and nothing is dropped, the
    pages hold the text of the list. *)
Theorem budget_respected (slide : SlideData) (reflowedContent : list jsstring) :
  Forall (fun page =>
            totalCost page <= MAX_LINES_PER_PAGE
            \/ exists p, page = [p] /\ MAX_LINES_PER_PAGE < getLineCost p)
    (pagesOf slide reflowedContent)
  /\ concat (concat (pagesOf slide reflowedContent)) = concat reflowedContent.
Proof.
  destruct (pagesOf_inv slide reflowedContent) as (Hok & _ & Htext).
  split; [exact Hok|exact Htext].
Qed.

(** C4 as stated fails: a paragraph of 100 code units without punctuation
    comes out of the reflow engine as it is, 31 code units over the
    budget. *)
Lemma idempotence_within_budget_fails :
  reflowContent [repeatChar 100 97] = [repeatChar 100 97]
  /\ ~ idempotentWithinBudget [repeatChar 100 97].
Proof.
  split; [by vm_compute|]. intros [_ Hall].
  assert (H : reflowContent [repeatChar 100 97] = [repeatChar 100 97])
    by (by vm_compute).
  rewrite H in Hall. inversion Hall as [|? ? Hlen _]; subst.
  vm_compute in Hlen. lia.
Qed.

(** C4, idempotence, as the code has it: a second run of the reflow engine
    changes nothing, because every fragment of the first run is settled: a
    heading, a fragment within [MAX_CHARS_PER_PARA], or one with fewer than
    two sentence spans, which may exceed the budget. *)
Theorem reflow_idempotent (xs : list jsstring) :
  reflowContent (reflowContent xs) = reflowContent xs
  /\ Forall (fun s =>
              startsWith [HASH] s = true
              \/ (length s <= MAX_CHARS_PER_PARA)%nat
              \/ (length (splitIntoSentences s) <= 1)%nat)
       (reflowContent xs).
Proof.
  pose proof (reflowContent_all_settled xs) as Hall. split.
  - pose proof (reflowContent_settled (reflowContent xs) [] Hall) as H.
    by rewrite app_nil_r, reflowContent_nil, app_nil_r in H.
  - eapply Forall_impl; [exact Hall|]. intros s Hs. unfold settled in Hs.
    apply orb_true_iff in Hs as [Hs|Hs]; [apply orb_true_iff in Hs as [Hs|Hs]|].
    + by left.
    + right. left. by apply Nat.leb_le.
    + right. right. by apply Nat.leb_le.
Qed.

(** C5 as stated fails: of the text [" a\nb"], leading space and a single
    newline, the server makes the two paragraphs [" a"] and ["b"]; split at
    blank lines and trimmed, it is the one paragraph ["a\nb"]. *)
Lemma ingestion_as_stated_fails :
  let text := ofString " a" ++ [NEWLINE] ++ ofString "b" in
  rawParagraphs text = [ofString " a"; ofString "b"]
  /\ specParagraphs text = [ofString "a" ++ [NEWLINE] ++ ofString "b"]
  /\ rawParagraphs text <> specParagraphs text.
Proof.
  cbv zeta. split; [by vm_compute|]. split; [by vm_compute|].
  vm_compute. discriminate.
Qed.

(** C5, ingestion, as the code has it: the initial paragraphs are the lines
    of the text, cut at every newline, that are not blank; a paragraph holds
    no newline, is not empty once trimmed, and is kept untrimmed. *)
Theorem ingestion_keeps_nonblank_lines (text : jsstring) :
  rawParagraphs text = List.filter nonBlank (splitAtNewline [] text)
  /\ Forall (fun p => ~ In NEWLINE p /\ trim p <> []) (rawParagraphs text).
Proof.
  assert (H : rawParagraphs text = List.filter nonBlank (splitAtNewline [] text)).
  { unfold rawParagraphs, splitNewlines. by apply splitGo_lines. }
  split; [done|]. rewrite H. apply List.Forall_forall. intros p Hp.
  apply filter_In in Hp as [Hin Hnb]. split.
  - pose proof (splitAtNewline_lines [] text ltac:(intros [])) as Hl.
    rewrite List.Forall_forall in Hl. by apply Hl.
  - unfold nonBlank in Hnb. intros Hnil. by rewrite Hnil in Hnb.
Qed.

(** C6, the character-split branch: a paragraph that is no heading and
    overflows the page is cut when two lines or more remain, [part1] of
    [(remainingLines - 1) * CHARS_PER_LINE] code units closing the page, which
    is pushed with the chunk and [part1] as its content and the slide's other
    fields, and the non-empty [part2] opening the next chunk with its own
    cost.  With one line or less
    remaining (state [st1], any overflowing paragraph [paragraph1] that is no
    heading) the chunk is pushed as it is, no fragment added, and the whole
    paragraph opens the next chunk. *)
Theorem character_split_branch (slide : SlideData) (st st1 : PagState)
    (paragraph paragraph1 : jsstring) :
  startsWith [HASH] paragraph = false ->
  MAX_LINES_PER_PAGE < currentLinesUsed st + getLineCost paragraph ->
  2 <= MAX_LINES_PER_PAGE - currentLinesUsed st ->
  startsWith [HASH] paragraph1 = false ->
  MAX_LINES_PER_PAGE < currentLinesUsed st1 + getLineCost paragraph1 ->
  MAX_LINES_PER_PAGE - currentLinesUsed st1 <= 1 ->
  let maxChars :=
    (MAX_LINES_PER_PAGE - currentLinesUsed st - 1) * CHARS_PER_LINE in
  let part1 := slice paragraph 0 maxChars in
  let part2 := sliceFrom paragraph maxChars in
  paginateStep slide st paragraph
  = mkPag
      (paginatedSlides st ++ [withContent slide (currentChunk st ++ [part1])])
      [part2] (getLineCost part2)
  /\ map content (paginatedSlides (paginateStep slide st paragraph))
     = map content (paginatedSlides st) ++ [currentChunk st ++ [part1]]
  /\ last (paginatedSlides (paginateStep slide st paragraph))
     = Some (mkSlide (id slide) (type slide) (title slide)
               (currentChunk st ++ [part1]) (subtitle slide) (category slide)
               (tags slide) (pageNumber slide) (totalPages slide)
               (backgroundImage slide) (titleFontSize slide)
               (coverStyle slide))
  /\ part1 ++ part2 = paragraph
  /\ part1 = take (Z.to_nat maxChars) paragraph
  /\ part2 = drop (Z.to_nat maxChars) paragraph
  /\ Z.of_nat (length part1) = maxChars
  /\ part2 <> []
  /\ paginateStep slide st1 paragraph1
     = mkPag (paginatedSlides st1 ++ [withContent slide (currentChunk st1)])
         [paragraph1] (getLineCost paragraph1)
  /\ map content (paginatedSlides (paginateStep slide st1 paragraph1))
     = map content (paginatedSlides st1) ++ [currentChunk st1]
  /\ last (paginatedSlides (paginateStep slide st1 paragraph1))
     = Some (mkSlide (id slide) (type slide) (title slide) (currentChunk st1)
               (subtitle slide) (category slide) (tags slide)
               (pageNumber slide) (totalPages slide) (backgroundImage slide)
               (titleFontSize slide) (coverStyle slide)).
Proof.
  intros Hh Hover Hroom Hh1 Hover1 Hroom1 maxChars part1 part2.
  destruct (split_parts paragraph (currentLinesUsed st) Hh Hover Hroom)
    as (Hcat & Hfull & Hrest & _).
  assert (Hk : 0 <= maxChars)
    by (unfold maxChars, CHARS_PER_LINE, MAX_LINES_PER_PAGE in *; lia).
  assert (Hstep : paginateStep slide st paragraph
            = mkPag
                (paginatedSlides st
                   ++ [withContent slide (currentChunk st ++ [part1])])
                [part2] (getLineCost part2)).
  { unfold paginateStep. rewrite Hh.
    destruct (Z.leb_spec (currentLinesUsed st + getLineCost paragraph)
                MAX_LINES_PER_PAGE); [lia|].
    destruct (Z.leb_spec (MAX_LINES_PER_PAGE - currentLinesUsed st) 1); [lia|].
    done. }
  assert (Hstep1 : paginateStep slide st1 paragraph1
            = mkPag
                (paginatedSlides st1 ++ [withContent slide (currentChunk st1)])
                [paragraph1] (getLineCost paragraph1)).
  { unfold paginateStep. rewrite Hh1.
    destruct (Z.leb_spec (currentLinesUsed st1 + getLineCost paragraph1)
                MAX_LINES_PER_PAGE); [lia|].
    destruct (Z.leb_spec (MAX_LINES_PER_PAGE - currentLinesUsed st1) 1); [|lia].
    done. }
  repeat split; try done.
  - rewrite Hstep. simpl. by rewrite map_app.
  - rewrite Hstep. simpl. apply last_snoc.
  - by apply slice_prefix.
  - by apply slice_suffix.
  - rewrite Hstep1. simpl. by rewrite map_app.
  - rewrite Hstep1. simpl. apply last_snoc.
Qed.

Lemma character_split_branch_witness :
  let slide := contentSlide [] in
  let st := mkPag [] [] 0 in
  let st1 := mkPag [] [repeatChar 374 98] 18 in
  let paragraph := repeatChar 400 97 in
  let paragraph1 := ofString "abc" in
  paginateStep slide st paragraph
  = mkPag [withContent slide [repeatChar 396 97]] [repeatChar 4 97] 2
  /\ map content (paginatedSlides (paginateStep slide st paragraph))
     = [[repeatChar 396 97]]
  /\ last (paginatedSlides (paginateStep slide st paragraph))
     = Some (mkSlide None ty_content [] [repeatChar 396 97] None
               (Some (ofString "Knowledge")) None None None None None None)
  /\ repeatChar 396 97 ++ repeatChar 4 97 = paragraph
  /\ repeatChar 396 97 = take 396 paragraph
  /\ repeatChar 4 97 = drop 396 paragraph
  /\ Z.of_nat (length (repeatChar 396 97)) = 396
  /\ repeatChar 4 97 <> []
  /\ paginateStep slide st1 paragraph1
     = mkPag [withContent slide [repeatChar 374 98]] [paragraph1] 2
  /\ map content (paginatedSlides (paginateStep slide st1 paragraph1))
     = [[repeatChar 374 98]]
  /\ last (paginatedSlides (paginateStep slide st1 paragraph1))
     = Some (mkSlide None ty_content [] [repeatChar 374 98] None
               (Some (ofString "Knowledge")) None None None None None None).
Proof.
  apply (character_split_branch (contentSlide []) (mkPag [] [] 0)
           (mkPag [] [repeatChar 374 98] 18) (repeatChar 400 97)
           (ofString "abc")).
  - reflexivity.
  - vm_compute. reflexivity.
  - vm_compute. discriminate.
  - reflexivity.
  - vm_compute. reflexivity.
  - vm_compute. discriminate.
Defined.

(** C7, the tail-move step: for a slot [current] that is no heading, is
    over the budget and has two sentence spans or more, a round of the
    [while] loop takes the last span off, [current] becoming the earlier
    spans concatenated, and puts it in front of the next slot, or pushes it
    as a new last slot; the loop goes on from there, and what it ends on is
    pushed for the slot, the run going on with the slots behind as the loop
    left them; when the earlier spans are no heading, that is the run on
    the buffer with the slot and the next slot so changed.  A slot [stuck]
    over the budget with fewer than two spans is left by the loop and
    pushed as it is, and the slots that follow are untouched. *)
Theorem tail_move_step (fuel i : nat) (current stuck : jsstring)
    (buffer rest : list jsstring) :
  startsWith [HASH] current = false ->
  (MAX_CHARS_PER_PARA < length current)%nat ->
  (2 <= length (splitIntoSentences current))%nat ->
  startsWith [HASH] stuck = false ->
  (MAX_CHARS_PER_PARA < length stuck)%nat ->
  (length (splitIntoSentences stuck) < 2)%nat ->
  exists lastSentence,
    last (splitIntoSentences current) = Some lastSentence
    /\ lastSentence <> []
    /\ reflowWhile (S fuel) i current buffer
       = reflowWhile fuel i (concat (removelast (splitIntoSentences current)))
           (match buffer !! (i + 1)%nat with
            | Some next => <[(i + 1)%nat := lastSentence ++ next]> buffer
            | None => buffer ++ [lastSentence]
            end)
    /\ (exists c rest',
          reflowWhile
            (length (concat (removelast (splitIntoSentences current)))) 0
            (concat (removelast (splitIntoSentences current)))
            (current :: match rest with
                        | [] => [lastSentence]
                        | next :: rest' => (lastSentence ++ next) :: rest'
                        end)
          = Some (c, current :: rest')
          /\ reflowContent (current :: rest) = c :: reflowContent rest')
    /\ (startsWith [HASH] (concat (removelast (splitIntoSentences current)))
        = false ->
        reflowContent (current :: rest)
        = reflowContent
            (concat (removelast (splitIntoSentences current))
               :: match rest with
                  | [] => [lastSentence]
                  | next :: rest' => (lastSentence ++ next) :: rest'
                  end))
    /\ reflowWhile fuel i stuck buffer = Some (stuck, buffer)
    /\ reflowContent (stuck :: rest) = stuck :: reflowContent rest.
Proof.
  intros Hh Hlong Hmany Hsh Hslong Hfew.
  destruct (tail_move current Hmany)
    as (x & Hlast & Hor & Hx & _ & _ & _ & _).
  pose proof (tail_move_shorter current Hmany) as Hshort.
  exists x. split; [done|]. split; [done|].
  apply Nat.leb_gt in Hlong. apply Nat.leb_gt in Hslong.
  assert (Hmany' : (length (splitIntoSentences current) <=? 1)%nat = false)
    by (apply Nat.leb_gt; lia).
  assert (Hfew' : (length (splitIntoSentences stuck) <=? 1)%nat = true)
    by (apply Nat.leb_le; lia).
  set (remainder := concat (removelast (splitIntoSentences current))) in *.
  change (match rest with
          | [] => [x]
          | next :: rest'0 => (x ++ next) :: rest'0
          end) with (prependTo x rest).
  destruct (moveTails_spec (length remainder) remainder (prependTo x rest)
              (le_n _)) as (c & rest' & Heq & _).
  assert (Hrun : moveTails (length current) current rest = Some (c, rest')).
  { destruct (length current) as [|n] eqn:En; [lia|].
    cbn [moveTails]. rewrite En, Hlong, Hmany', Hor. fold remainder.
    apply (moveTails_more (length remainder)); [done|lia]. }
  repeat split.
  - cbn [reflowWhile]. rewrite Hlong, Hmany', Hor. done.
  - exists c, rest'. split.
    + rewrite (reflowWhile_tail _ 0 remainder [current] (prependTo x rest))
        by done.
      by rewrite Heq.
    + by apply (reflowContent_body current rest c rest' Hh).
  - intros Hrem.
    rewrite (reflowContent_body remainder _ c rest' Hrem Heq).
    by apply (reflowContent_body current rest c rest' Hh).
  - destruct fuel; cbn [reflowWhile]; by rewrite Hslong, Hfew'.
  - apply (reflowContent_body stuck rest stuck rest Hsh).
    destruct (length stuck) eqn:E; cbn [moveTails]; by rewrite ?E, Hslong, Hfew'.
Qed.

Lemma tail_move_step_witness :
  exists lastSentence,
    last (splitIntoSentences hashAfterStop) = Some lastSentence
    /\ lastSentence <> []
    /\ reflowWhile 1 0 hashAfterStop [hashAfterStop]
       = reflowWhile 0 0
           (concat (removelast (splitIntoSentences hashAfterStop)))
           ([hashAfterStop] ++ [lastSentence])
    /\ (exists c rest',
          reflowWhile
            (length (concat (removelast (splitIntoSentences hashAfterStop))))
            0 (concat (removelast (splitIntoSentences hashAfterStop)))
            [hashAfterStop; lastSentence]
          = Some (c, hashAfterStop :: rest')
          /\ reflowContent [hashAfterStop] = c :: reflowContent rest')
    /\ (startsWith [HASH]
          (concat (removelast (splitIntoSentences hashAfterStop))) = false ->
        reflowContent [hashAfterStop]
        = reflowContent
            [concat (removelast (splitIntoSentences hashAfterStop));
             lastSentence])
    /\ reflowWhile 0 0 (repeatChar 100 97) [hashAfterStop]
       = Some (repeatChar 100 97, [hashAfterStop])
    /\ reflowContent [repeatChar 100 97] = repeatChar 100 97 :: reflowContent [].
Proof.
  apply (tail_move_step 0 0 hashAfterStop (repeatChar 100 97)
           [hashAfterStop] []).
  - reflexivity.
  - vm_compute. lia.
  - vm_compute. lia.
  - reflexivity.
  - vm_compute. lia.
  - vm_compute. lia.
Defined.

(** C8, the numbering contract: the finishing pass keeps the sequence and
    its slide types, gives the slides the page numbers [1 .. N] in order,
    cover included, and gives every slide [N] as its total. *)
Theorem numbering_contract (clock : nat -> N) (finalData : list SlideData) :
  length (finishingPass clock finalData) = length finalData
  /\ map type (finishingPass clock finalData) = map type finalData
  /\ map pageNumber (finishingPass clock finalData)
     = map (fun k => Some (Z.of_nat k)) (seq 1 (length finalData))
  /\ Forall (fun s => totalPages s = Some (Z.of_nat (length finalData)))
       (finishingPass clock finalData).
Proof.
  repeat split.
  - apply length_imap.
  - by apply imap_same_field.
  - apply finishingPass_numbers.
  - apply finishingPass_totals.
Qed.

(** C9, totality and termination: given the rounds [reflowFuel] counts, or
    more, the [for] loop of the reflow engine ends with [reflowContent];
    the [while] loop ends within [length current] rounds at any index of the
    buffer, because a round strictly shortens the slot; the scan of the
    regular expression needs no more rounds than the text has code units;
    and the paginator, one round for each paragraph, ends with at most one
    page more than paragraphs. *)
Theorem reflow_and_paginator_terminate (content buffer : list jsstring)
    (fuel i : nat) (current : jsstring) (slide : SlideData) :
  (reflowFuel content <= fuel)%nat ->
  (i < length buffer)%nat ->
  reflowFor fuel 0 content [] = Some (reflowContent content)
  /\ is_Some (reflowWhile (length current) i current buffer)
  /\ ((length (splitIntoSentences current) <= 1)%nat
      \/ (length (concat (removelast (splitIntoSentences current)))
          < length current)%nat)
  /\ matchAll (fuel + length current) current
     = matchAll (length current) current
  /\ (length (paginate slide (reflowContent content) [])
      <= length (reflowContent content) + 1)%nat.
Proof.
  intros Hfuel Hi. repeat split.
  - rewrite (reflowFor_rest _ 0 [] content []) by done.
    destruct (reflowRest_total fuel content Hfuel) as [out Hout].
    rewrite Hout. simpl. by rewrite (reflowContent_rest _ _ _ Hout).
  - rewrite <- (take_drop (S i) buffer).
    rewrite reflowWhile_tail by (rewrite length_take; lia).
    destruct (moveTails_spec (length current) current (drop (S i) buffer)
                (le_n _)) as (c & rest' & Heq & _).
    rewrite Heq. by eexists.
  - destruct (le_lt_dec (length (splitIntoSentences current)) 1); [by left|].
    right. apply tail_move_shorter. lia.
  - apply matchAll_more; lia.
  - pose proof (paginate_pages slide (reflowContent content) []) as H.
    simpl in H. lia.
Qed.

Lemma reflow_and_paginator_terminate_witness :
  reflowFor 200 0 [twoSentences; ofString "## T"] []
  = Some (reflowContent [twoSentences; ofString "## T"])
  /\ is_Some (reflowWhile (length twoSentences) 0 twoSentences [twoSentences])
  /\ ((length (splitIntoSentences twoSentences) <= 1)%nat
      \/ (length (concat (removelast (splitIntoSentences twoSentences)))
          < length twoSentences)%nat)
  /\ matchAll (200 + length twoSentences) twoSentences
     = matchAll (length twoSentences) twoSentences
  /\ (length (paginate (contentSlide [])
                (reflowContent [twoSentences; ofString "## T"]) [])
      <= length (reflowContent [twoSentences; ofString "## T"]) + 1)%nat.
Proof.
  apply (reflow_and_paginator_terminate [twoSentences; ofString "## T"]
           [twoSentences] 200 0 twoSentences (contentSlide [])).
  - vm_compute. lia.
  - simpl. lia.
Defined.

(** C10, renumbering after an edit: [reindexSlides] numbers the slides that
    are no cover [1 .. M] in order, [M] being their count, gives every slide
    [M] as its total, and changes no other field, nor the page number of a
    cover; the finishing pass numbers every slide of the same list, cover
    included, [1 .. N], with [N] the count of all slides as the total. *)
Theorem reindex_counts_content_only (clock : nat -> N)
    (currentSlides : list SlideData) :
  let M := length (List.filter (fun s => negb (isCover s)) currentSlides) in
  let N := length currentSlides in
  length (reindexSlides currentSlides) = N
  /\ map pageNumber
       (List.filter (fun s => negb (isCover s)) (reindexSlides currentSlides))
     = map (fun k => Some (Z.of_nat k)) (seq 1 M)
  /\ Forall (fun s => totalPages s = Some (Z.of_nat M))
       (reindexSlides currentSlides)
  /\ Forall2 (fun s s' =>
                sameOtherFields s s'
                /\ (isCover s = true -> pageNumber s' = pageNumber s))
       currentSlides (reindexSlides currentSlides)
  /\ map pageNumber (finishingPass clock currentSlides)
     = map (fun k => Some (Z.of_nat k)) (seq 1 N)
  /\ Forall (fun s => totalPages s = Some (Z.of_nat N))
       (finishingPass clock currentSlides)
  /\ (M + length (List.filter isCover currentSlides))%nat = N.
Proof.
  intros M N. unfold reindexSlides. fold M. repeat split.
  - apply reindexMap_length.
  - rewrite reindexMap_numbers. fold M. apply map_ext. intros k. f_equal; lia.
  - apply reindexMap_total.
  - apply reindexMap_frame.
  - apply finishingPass_numbers.
  - apply finishingPass_totals.
  - apply filter_cover_split.
Qed.

(** ** Further properties of the reflow engine *)

Section ReflowExtras.

Lemma span_fst_last f s c :
  last (span f s).1 = Some c -> f c = true.
Proof.
  pose proof (span_fst_all f s) as Hall. intros Hlast.
  apply last_Some in Hlast as [l Hl]. rewrite Hl in Hall.
  apply Forall_app in Hall as [_ Hc]. by inversion Hc.
Qed.

(** A match that is followed by more text ends with a boundary character. *)
Lemma sentenceAt_ends s m rest :
  sentenceAt s = Some (m, rest) -> rest = [] \/ endsWithBoundary m = true.
Proof.
  unfold sentenceAt.
  destruct (span (fun c => negb (isBoundary c)) s) as [run rest0].
  destruct run as [|r run]; [done|].
  pose proof (span_fst_last isBoundary rest0) as Hlast.
  destruct (span isBoundary rest0) as [term rest1]; simpl in *.
  destruct term as [|t term].
  - destruct rest0; [|done]. intros [= <- <-]. by left.
  - intros [= <- <-]. right. unfold endsWithBoundary.
    change (r :: run ++ t :: term) with ((r :: run) ++ t :: term).
    rewrite last_app. destruct (last (t :: term)) as [c|] eqn:E.
    + by apply Hlast.
    + by apply last_None in E.
Qed.

Lemma matchAll_nil_rest fuel s : s = [] -> matchAll fuel s = [].
Proof. intros ->. by destruct fuel. Qed.

Lemma matchAll_ends fuel s :
  Forall (fun m => endsWithBoundary m = true) (removelast (matchAll fuel s)).
Proof.
  revert s. induction fuel as [|n IH]; intros s; [constructor|].
  destruct s as [|c s']; [constructor|].
  cbn [matchAll]. destruct (sentenceAt (c :: s')) as [[m rest]|] eqn:E; [|apply IH].
  destruct (matchAll n rest) as [|m' ms] eqn:Em; [constructor|].
  change (removelast (m :: m' :: ms)) with (m :: removelast (m' :: ms)).
  constructor; [|rewrite <- Em; apply IH].
  destruct (sentenceAt_ends _ _ _ E) as [->|H]; [|done].
  by rewrite matchAll_nil_rest in Em.
Qed.

Lemma reflowContent_length (content : list jsstring) :
  (length content <= length (reflowContent content))%nat.
Proof.
  apply (reflowContent_run (fun xs out => (length xs <= length out)%nat)).
  - done.
  - intros current rest _ IH. simpl. lia.
  - intros current rest c rest' _ Hm IH.
    destruct (moveTails_inv _ _ _ _ _ (le_n _) Hm) as [_ Hcases].
    destruct Hcases as [[-> ->]|(moved & _ & _ & _ & _ & _ & ->)];
      [simpl; lia|].
    simpl. destruct rest; simpl in *; lia.
Qed.

End ReflowExtras.

(** X1, splitting and joining: the sentence spans of a text that begins
    with no boundary character, joined, are the text. *)
Theorem sentences_join (text : jsstring) :
  noLeadingBoundary text = true ->
  concat (splitIntoSentences text) = text.
Proof.
  intros Hnb. unfold splitIntoSentences.
  pose proof (matchAll_concat (length text) text (le_n _)) as Hc.
  rewrite (dropWhile_noLeadingBoundary _ Hnb) in Hc.
  destruct (matchAll (length text) text); [simpl; by rewrite app_nil_r|done].
Qed.

Lemma sentences_join_witness :
  concat (splitIntoSentences twoSentences) = twoSentences.
Proof. apply (sentences_join twoSentences). reflexivity. Defined.

(** X2, the shape of the spans: there is always one span at least; every
    span but the last ends with a boundary character; and unless the text
    is empty no span is empty. *)
Theorem sentences_shape (text : jsstring) :
  splitIntoSentences text <> []
  /\ Forall (fun m => endsWithBoundary m = true)
       (removelast (splitIntoSentences text))
  /\ (text = [] \/ Forall (fun m => m <> []) (splitIntoSentences text)).
Proof.
  unfold splitIntoSentences.
  pose proof (matchAll_ends (length text) text) as Hends.
  pose proof (matchAll_spans (length text) text) as Hspans.
  destruct (matchAll (length text) text) as [|m ms].
  - repeat split; [done|constructor|].
    destruct text; [by left|right]. by repeat constructor.
  - repeat split; [done|done|]. right.
    eapply Forall_impl; [exact Hspans|]. by intros x [Hx _].
Qed.

(** X3, the fixed points of the reflow engine: it returns its input
    unchanged exactly when every string of the input is settled (a heading,
    within the budget, or with fewer than two sentence spans). *)
Theorem reflow_fixed_points (content : list jsstring) :
  reflowContent content = content
  <-> Forall (fun s => settled s = true) content.
Proof.
  split.
  - intros H. rewrite <- H. apply reflowContent_all_settled.
  - intros H. pose proof (reflowContent_settled content [] H) as Heq.
    by rewrite app_nil_r, reflowContent_nil, app_nil_r in Heq.
Qed.

(** X4, no slot is lost and no empty one is made: for every input the
    output of the reflow engine has as many strings as the input, or more,
    and no more empty strings than the input; so if no input string is
    empty then no output string is. *)
Theorem reflow_keeps_slots (content : list jsstring) :
  (length content <= length (reflowContent content))%nat
  /\ (length (List.filter (fun s => (length s =? 0)%nat)
                (reflowContent content))
      <= length (List.filter (fun s => (length s =? 0)%nat) content))%nat
  /\ (Forall (fun s => s <> []) content ->
      Forall (fun s => s <> []) (reflowContent content)).
Proof.
  assert (Hcount :
    (length (List.filter (fun s => (length s =? 0)%nat)
               (reflowContent content))
     <= length (List.filter (fun s => (length s =? 0)%nat) content))%nat).
  { apply (reflowContent_run (fun xs out =>
      (length (List.filter (fun s => (length s =? 0)%nat) out)
       <= length (List.filter (fun s => (length s =? 0)%nat) xs))%nat)).
    - done.
    - intros current rest _ IH. simpl.
      destruct (length current =? 0)%nat; simpl; lia.
    - intros current rest c rest' _ Hm IH.
      destruct (moveTails_inv _ _ _ _ _ (le_n _) Hm) as [_ Hcases].
      destruct Hcases as [[-> ->]|(moved & Hm1 & _ & Hc1 & _ & _ & ->)].
      + simpl. destruct (length current =? 0)%nat; simpl; lia.
      + assert (Hrest :
          (length (List.filter (fun s => (length s =? 0)%nat)
                     (prependTo moved rest))
           <= length (List.filter (fun s => (length s =? 0)%nat) rest))%nat).
        { destruct rest as [|next rest]; simpl.
          - by destruct moved.
          - rewrite length_app.
            destruct moved; [done|]. simpl.
            destruct (length next =? 0)%nat; simpl; lia. }
        simpl. destruct c; [done|]. simpl.
        destruct (length current =? 0)%nat; simpl; lia. }
  split; [apply reflowContent_length|]. split; [done|].
  intros Hall.
  assert (Hzero : length (List.filter (fun s => (length s =? 0)%nat) content)
                  = 0%nat).
  { clear Hcount. induction Hall as [|s l Hs _ IH]; [done|].
    simpl. destruct s; [done|]. simpl. exact IH. }
  rewrite Hzero in Hcount.
  apply List.Forall_forall. intros s Hs ->.
  assert (Hin : In [] (List.filter (fun s : jsstring => (length s =? 0)%nat)
                         (reflowContent content)))
    by (by apply filter_In).
  destruct (List.filter _ (reflowContent content)); [done|].
  simpl in Hcount. lia.
Qed.

Lemma reflow_keeps_slots_witness :
  (length [twoSentences; []] <= length (reflowContent [twoSentences; []]))%nat
  /\ (length (List.filter (fun s => (length s =? 0)%nat)
                (reflowContent [twoSentences; []]))
      <= length (List.filter (fun s => (length s =? 0)%nat)
                   [twoSentences; []]))%nat
  /\ (Forall (fun s => s <> []) [twoSentences; []] ->
      Forall (fun s => s <> []) (reflowContent [twoSentences; []])).
Proof. apply (reflow_keeps_slots [twoSentences; []]). Defined.

(** X5, verbatim preservation where it holds: for a slide none of whose
    paragraphs begins with a boundary character, the contents of the pages
    made of it, concatenated, are the concatenated paragraphs. *)
Theorem verbatim_pipeline (slide : SlideData) :
  Forall (fun s => noLeadingBoundary s = true) (content slide) ->
  concat (concat (map content (paginateSlide [] slide)))
  = concat (content slide).
Proof.
  intros Hall. unfold paginateSlide.
  destruct (negb (isContent slide) || (length (content slide) =? 0)%nat).
  - simpl. by rewrite app_nil_r.
  - destruct (pagesOf_inv slide (reflowContent (content slide))) as (_ & _ & H).
    unfold pagesOf in H. rewrite H. by apply reflowContent_verbatim.
Qed.

Lemma verbatim_pipeline_witness :
  concat (concat (map content (paginateSlide [] (contentSlide [twoSentences]))))
  = concat (content (contentSlide [twoSentences])).
Proof.
  apply (verbatim_pipeline (contentSlide [twoSentences])).
  repeat constructor.
Defined.

(** ** Further properties of the paginator *)

Section PaginatorExtras.

Variable slide : SlideData.

(** After a round the chunk is never empty. *)
Lemma paginateStep_chunk (st : PagState) (p : jsstring) :
  currentChunk (paginateStep slide st p) <> [].
Proof.
  unfold paginateStep.
  repeat (destruct (_ <=? _) || destruct (startsWith _ _)); simpl;
    try done. by destruct (currentChunk st).
Qed.

Lemma paginate_loop_chunk (ps : list jsstring) (st : PagState) :
  ps <> [] -> currentChunk (fold_left (paginateStep slide) ps st) <> [].
Proof.
  revert st. induction ps as [|p ps IH]; intros st Hne; [done|].
  simpl. destruct ps as [|q ps]; [apply paginateStep_chunk|].
  by apply IH.
Qed.

(** Paragraphs that fit together are appended one after the other. *)
Lemma paginate_loop_fits (ps : list jsstring) (st : PagState) :
  currentLinesUsed st + totalCost ps <= MAX_LINES_PER_PAGE ->
  fold_left (paginateStep slide) ps st
  = mkPag (paginatedSlides st) (currentChunk st ++ ps)
      (currentLinesUsed st + totalCost ps).
Proof.
  revert st. induction ps as [|p ps IH]; intros st Hfit.
  - simpl. rewrite app_nil_r, Z.add_0_r. by destruct st.
  - simpl in *. pose proof (totalCost_nonneg ps) as Hps.
    pose proof (getLineCost_nonneg p) as Hp.
    unfold paginateStep at 2.
    destruct (Z.leb_spec (currentLinesUsed st + getLineCost p)
                MAX_LINES_PER_PAGE); [|lia].
    rewrite IH by (simpl; lia). simpl.
    rewrite <- app_assoc. f_equal. lia.
Qed.

(** The slides pushed are the slide with another content. *)
Lemma paginateStep_frame (st : PagState) (p : jsstring) :
  Forall (fun s' => withContent slide (content s') = s') (paginatedSlides st) ->
  Forall (fun s' => withContent slide (content s') = s')
    (paginatedSlides (paginateStep slide st p)).
Proof.
  intros Hall. unfold paginateStep, flush.
  repeat (destruct (_ <=? _) || destruct (startsWith _ _)
          || destruct (_ <? _)%nat);
    simpl; try done; apply Forall_app; (split; [done|]); by constructor.
Qed.

Lemma paginate_frame (ps : list jsstring) (pushed : list SlideData) :
  Forall (fun s' => withContent slide (content s') = s') pushed ->
  Forall (fun s' => withContent slide (content s') = s')
    (paginate slide ps pushed).
Proof.
  intros Hall. unfold paginate.
  assert (H : forall st,
    Forall (fun s' => withContent slide (content s') = s') (paginatedSlides st) ->
    Forall (fun s' => withContent slide (content s') = s')
      (paginatedSlides (fold_left (paginateStep slide) ps st))).
  { induction ps as [|p ps IH]; intros st Hst; [done|].
    simpl. apply IH. by apply paginateStep_frame. }
  specialize (H (mkPag pushed [] 0) Hall).
  destruct (_ <? _)%nat; [|done].
  unfold flush. apply Forall_app. split; [done|]. by constructor.
Qed.

(** The pages pushed before stay in front. *)
Lemma paginateStep_prefix (st : PagState) (p : jsstring) :
  exists more, paginatedSlides (paginateStep slide st p)
               = paginatedSlides st ++ more.
Proof.
  unfold paginateStep, flush.
  repeat (destruct (_ <=? _) || destruct (startsWith _ _)
          || destruct (_ <? _)%nat);
    simpl; first [by exists []; rewrite app_nil_r | by eexists].
Qed.

End PaginatorExtras.

Lemma paginateStep_pushed (slide : SlideData) (pushed : list SlideData)
    (pages : list SlideData) (chunk : list jsstring) (used : Z) (p : jsstring) :
  paginateStep slide (mkPag (pushed ++ pages) chunk used) p
  = let st := paginateStep slide (mkPag pages chunk used) p in
    mkPag (pushed ++ paginatedSlides st) (currentChunk st) (currentLinesUsed st).
Proof.
  unfold paginateStep, flush.
  cbn [paginatedSlides currentChunk currentLinesUsed]. cbv zeta.
  destruct (_ <=? _); [done|].
  destruct (startsWith [HASH] p).
  { destruct (_ <? _)%nat;
      cbn [paginatedSlides currentChunk currentLinesUsed];
      by rewrite ?app_assoc. }
  destruct (_ <=? 1); cbn [paginatedSlides currentChunk currentLinesUsed];
    by rewrite app_assoc.
Qed.

(** The pages of a slide are pushed behind the slides pushed before. *)
Lemma paginate_pushed (slide : SlideData) (ps : list jsstring)
    (pushed : list SlideData) :
  paginate slide ps pushed = pushed ++ paginate slide ps [].
Proof.
  unfold paginate.
  assert (H : forall pages chunk used,
    fold_left (paginateStep slide) ps (mkPag (pushed ++ pages) chunk used)
    = let st := fold_left (paginateStep slide) ps (mkPag pages chunk used) in
      mkPag (pushed ++ paginatedSlides st) (currentChunk st)
        (currentLinesUsed st)).
  { induction ps as [|p ps IH]; intros pages chunk used; [done|].
    simpl. rewrite paginateStep_pushed. simpl.
    destruct (paginateStep slide (mkPag pages chunk used) p) as [pg ch us].
    simpl. apply IH. }
  specialize (H [] [] 0). rewrite app_nil_r in H. rewrite H. simpl.
  destruct (_ <? _)%nat; [|done]. unfold flush. simpl. by rewrite app_assoc.
Qed.

Lemma paginateSlide_pushed (pushed : list SlideData) (slide : SlideData) :
  paginateSlide pushed slide = pushed ++ paginateSlide [] slide.
Proof.
  unfold paginateSlide. destruct (_ || _); [done|]. apply paginate_pushed.
Qed.

Lemma paginateSlide_nonempty (slide : SlideData) :
  paginateSlide [] slide <> [].
Proof.
  unfold paginateSlide.
  destruct (negb (isContent slide)); [done|]. simpl.
  destruct (content slide) as [|p ps] eqn:E; [done|]. simpl.
  unfold paginate.
  pose proof (reflowContent_length (p :: ps)) as Hlen.
  pose proof (paginate_loop_chunk slide (reflowContent (p :: ps))
                (mkPag [] [] 0)) as Hchunk.
  destruct (fold_left _ _ _) as [pages chunk used]; simpl in *.
  destruct chunk as [|q chunk].
  - exfalso. apply Hchunk; [|done]. intros H. rewrite H in Hlen.
    simpl in Hlen. lia.
  - unfold flush. simpl. by destruct pages.
Qed.

(** The loop over the slides pushes the pages of each slide in turn. *)
Lemma paginateAll_concat (generatedData : list SlideData) :
  paginateAll generatedData = concat (map (paginateSlide []) generatedData).
Proof.
  assert (H : forall pushed,
    fold_left paginateSlide generatedData pushed
    = pushed ++ concat (map (paginateSlide []) generatedData)).
  { induction generatedData as [|slide l IH]; intros pushed; simpl.
    - by rewrite app_nil_r.
    - rewrite IH, paginateSlide_pushed. by rewrite <- app_assoc. }
  unfold paginateAll. by rewrite H.
Qed.

Lemma paginateAll_length (generatedData : list SlideData) :
  (length generatedData <= length (paginateAll generatedData))%nat.
Proof.
  rewrite paginateAll_concat.
  induction generatedData as [|slide l IH]; [done|].
  simpl. rewrite length_app.
  pose proof (paginateSlide_nonempty slide) as Hne.
  destruct (paginateSlide [] slide); [done|]. simpl. lia.
Qed.

Lemma paginateSlide_inherits (slide : SlideData) :
  Forall (fun s' => withContent slide (content s') = s')
    (paginateSlide [] slide).
Proof.
  unfold paginateSlide. destruct (_ || _).
  - simpl. constructor; [|done]. by destruct slide.
  - by apply paginate_frame.
Qed.

(** X6, no empty page: every page the paginator makes of a paragraph list
    holds a paragraph. *)
Theorem no_empty_page (slide : SlideData) (reflowedContent : list jsstring) :
  Forall (fun page => page <> []) (pagesOf slide reflowedContent).
Proof. by destruct (pagesOf_inv slide reflowedContent) as (_ & H & _). Qed.

(** X7, what fits stays together: paragraphs whose costs add up to the
    budget at most make one page, in their order. *)
Theorem short_content_one_page (slide : SlideData)
    (reflowedContent : list jsstring) :
  reflowedContent <> [] ->
  totalCost reflowedContent <= MAX_LINES_PER_PAGE ->
  pagesOf slide reflowedContent = [reflowedContent].
Proof.
  intros Hne Hfit. unfold pagesOf, paginate.
  rewrite paginate_loop_fits by (simpl; lia). simpl.
  by destruct reflowedContent.
Qed.

Lemma short_content_one_page_witness :
  pagesOf (contentSlide []) [ofString "## T"; ofString "abc"; twoSentences]
  = [[ofString "## T"; ofString "abc"; twoSentences]].
Proof.
  apply (short_content_one_page (contentSlide [])
           [ofString "## T"; ofString "abc"; twoSentences]).
  - discriminate.
  - vm_compute. discriminate.
Defined.

(** X8, a paragraph alone: it is cut, after its first 396 code units, when
    it is no heading, not blank and longer than 396 code units; any other
    paragraph makes one page, whatever its length. *)
Theorem single_paragraph_pages (slide : SlideData) (p : jsstring) :
  pagesOf slide [p]
  = if negb (startsWith [HASH] p) && nonBlank p && (396 <? length p)%nat
    then [[take 396 p]; [drop 396 p]]
    else [[p]].
Proof.
  remember (negb (startsWith [HASH] p) && nonBlank p && (396 <? length p)%nat)
    as cut eqn:Hcut.
  unfold pagesOf, paginate. cbn [fold_left]. unfold paginateStep, flush.
  cbn [paginatedSlides currentChunk currentLinesUsed]. cbv zeta.
  rewrite Z.add_0_l, Z.sub_0_r.
  destruct (Z.leb_spec (getLineCost p) MAX_LINES_PER_PAGE) as [Hfit|Hover].
  { cbn. destruct cut; [exfalso|done]. symmetry in Hcut.
    apply andb_true_iff in Hcut as [Hcut Hlong].
    apply andb_true_iff in Hcut as [Hh Hnb].
    apply negb_true_iff in Hh. apply Nat.ltb_lt in Hlong.
    destruct (startsWith_hash_cons p Hh) as [H2 H3].
    unfold getLineCost in Hfit. rewrite H2, H3 in Hfit.
    unfold nonBlank in Hnb. destruct (trim p); [done|].
    pose proof (ceilDiv_bounds (Z.of_nat (length p)) ltac:(lia)).
    unfold MAX_LINES_PER_PAGE, CHARS_PER_LINE in *. lia. }
  destruct (startsWith [HASH] p) eqn:Hh.
  { cbn. by rewrite Hcut. }
  destruct (startsWith_hash_cons p Hh) as [H2 H3].
  assert (Hcost : getLineCost p
                  = ceilDiv (Z.of_nat (length p)) CHARS_PER_LINE + 1
                  /\ nonBlank p = true).
  { unfold getLineCost, nonBlank in *. rewrite H2, H3 in *.
    destruct (trim p); [unfold MAX_LINES_PER_PAGE in *; lia|done]. }
  destruct Hcost as [Hcost Hnb]. rewrite Hcost in Hover.
  assert (Hlong : (396 < length p)%nat).
  { pose proof (ceilDiv_bounds (Z.of_nat (length p)) ltac:(lia)).
    unfold MAX_LINES_PER_PAGE, CHARS_PER_LINE in *. lia. }
  apply Nat.ltb_lt in Hlong. rewrite Hnb, Hlong in Hcut. subst cut.
  change (MAX_LINES_PER_PAGE <=? 1) with false. cbn.
  rewrite slice_prefix, slice_suffix by done.
  by change (Z.to_nat ((MAX_LINES_PER_PAGE - 1) * CHARS_PER_LINE)) with 396%nat.
Qed.

(** X9, slide by slide: the slides of [paginateAll] are the pages of the
    first slide, then those of the second, and so on, every slide giving
    one slide at least. *)
Theorem paginateAll_slide_by_slide (generatedData : list SlideData) :
  paginateAll generatedData = concat (map (paginateSlide []) generatedData)
  /\ (length generatedData <= length (paginateAll generatedData))%nat.
Proof. split; [apply paginateAll_concat|apply paginateAll_length]. Qed.

(** X10, pages inherit: every slide made of a slide is that slide with
    another content, all its other fields kept. *)
Theorem pages_inherit_fields (slide : SlideData) :
  Forall (fun s' => withContent slide (content s') = s')
    (paginateSlide [] slide).
Proof. apply paginateSlide_inherits. Qed.

(** ** Identifiers and file names *)

Section Names.

Lemma digits_inj (d d' : Decimal.uint) : digits d = digits d' -> d = d'.
Proof.
  revert d'. induction d as [|d IH|d IH|d IH|d IH|d IH|d IH|d IH|d IH|d IH|d IH];
    intros [|e|e|e|e|e|e|e|e|e|e]; simpl; intros H; try discriminate;
    try done; injection H as H; by rewrite (IH e H).
Qed.

Lemma digits_range (d : Decimal.uint) :
  Forall (fun c => (48 <= c <= 57)%N) (digits d).
Proof.
  induction d; simpl; constructor; try done; lia.
Qed.

Lemma decimal_inj (n m : N) : decimal n = decimal m -> n = m.
Proof.
  unfold decimal. intros H. apply digits_inj in H.
  by rewrite <- (DecimalN.Unsigned.of_to n), H, DecimalN.Unsigned.of_to.
Qed.

(** A text is cut at the first occurrence of a character in one way only. *)
Lemma cut_at_first (x : N) (l1 l2 r1 r2 : jsstring) :
  ~ In x l1 -> ~ In x l2 ->
  l1 ++ x :: r1 = l2 ++ x :: r2 -> l1 = l2 /\ r1 = r2.
Proof.
  revert l2. induction l1 as [|a l1 IH]; intros [|b l2] H1 H2 Heq;
    simpl in *.
  - by injection Heq as ->.
  - injection Heq as <- _. exfalso. apply H2. by left.
  - injection Heq as -> _. exfalso. apply H1. by left.
  - injection Heq as -> Heq.
    destruct (IH l2) as [-> ->]; try done; intros Hin; [apply H1|apply H2];
      by right.
Qed.

Lemma digits_without (x : N) (d : Decimal.uint) :
  (x < 48 \/ 57 < x)%N -> ~ In x (digits d).
Proof.
  intros Hx Hin. pose proof (digits_range d) as Hall.
  rewrite List.Forall_forall in Hall. specialize (Hall x Hin). lia.
Qed.

(** Zeros in front of the digits do not change the number. *)
Lemma zeros_digits (k : nat) (d : Decimal.uint) :
  repeat 48%N k ++ digits d = digits (Nat.iter k Decimal.D0 d).
Proof. induction k as [|k IH]; simpl; [done|]. by rewrite IH. Qed.

Lemma of_uint_zeros (k : nat) (d : Decimal.uint) :
  N.of_uint (Nat.iter k Decimal.D0 d) = N.of_uint d.
Proof. induction k as [|k IH]; simpl; [done|]. exact IH. Qed.

Lemma padStart_decimal_inj (w : nat) (n m : N) :
  padStart w 48 (decimal n) = padStart w 48 (decimal m) -> n = m.
Proof.
  unfold padStart, decimal. rewrite !zeros_digits. intros H.
  apply digits_inj in H. apply (f_equal N.of_uint) in H.
  by rewrite !of_uint_zeros, !DecimalN.Unsigned.of_to in H.
Qed.

Lemma NoDup_map_inj {A B} (h : A -> B) (l : list A) :
  (forall x y, h x = h y -> x = y) -> List.NoDup l -> List.NoDup (map h l).
Proof.
  intros Hinj. induction 1 as [|x l Hx Hl IH]; simpl; constructor; [|done].
  intros Hin. apply in_map_iff in Hin as (y & Hy & Hin).
  apply Hinj in Hy. by subst.
Qed.

End Names.

(** X11, identifiers: the finishing pass gives the slides pairwise
    different [id]s, whatever the clock shows at each of them. *)
Theorem finishingPass_ids_distinct (clock : nat -> N)
    (finalData : list SlideData) :
  List.NoDup (map id (finishingPass clock finalData)).
Proof.
  unfold finishingPass.
  rewrite (imap_field id
             (fun k => Some (ofString "slide-" ++ decimal (clock k)
                               ++ ofString "-" ++ decimal (N.of_nat k)))
             _ _ 0%nat) by done.
  apply NoDup_map_inj; [|apply seq_NoDup].
  intros x y H.
  change (ofString "-") with [45%N] in H.
  injection H as H.
  apply cut_at_first in H as [_ H]; try (apply digits_without; lia).
  apply decimal_inj in H. lia.
Qed.

Lemma imap_categories (coverCategory : jsstring)
    (f : nat -> SlideData -> SlideData) (l : list SlideData) :
  coverCategory <> [] ->
  (forall i s, category (f i s) = Some (orString (category s) coverCategory)) ->
  Forall2 (fun s s' =>
             category s'
             = Some (match category s with
                     | Some (c :: t) => c :: t
                     | _ => coverCategory
                     end)
             /\ category s' <> Some [])
    l (imap f l).
Proof.
  intros Hcc. revert f. induction l as [|s l IH]; intros f Hf; [constructor|].
  simpl. constructor; [|apply IH; intros i s'; apply Hf].
  rewrite Hf. destruct (category s) as [[|? ?]|]; simpl; split; congruence.
Qed.

(** X12, categories: the finishing pass writes on every slide the slide's
    own category where that is there and not empty, and elsewhere the cover
    category: the category of the first cover slide of the deck where that
    is there and not empty, else ["Knowledge System"].  So no slide is left
    with an empty category. *)
Theorem finishingPass_categories (clock : nat -> N)
    (finalData : list SlideData) :
  let coverCategory :=
    match find isCover finalData with
    | Some cover =>
        match category cover with
        | Some (c :: t) => c :: t
        | _ => ofString "Knowledge System"
        end
    | None => ofString "Knowledge System"
    end in
  Forall2 (fun s s' =>
             category s'
             = Some (match category s with
                     | Some (c :: t) => c :: t
                     | _ => coverCategory
                     end)
             /\ category s' <> Some [])
    finalData (finishingPass clock finalData).
Proof.
  intros coverCategory. unfold finishingPass.
  assert (Hcc : orString (find isCover finalData ≫= category)
                  (ofString "Knowledge System") = coverCategory).
  { unfold coverCategory.
    destruct (find isCover finalData) as [cover|]; [|done].
    simpl. by destruct (category cover) as [[|? ?]|]. }
  rewrite Hcc.
  apply (imap_categories coverCategory); [|done].
  unfold coverCategory.
  destruct (find isCover finalData) as [cover|]; [|done].
  by destruct (category cover) as [[|? ?]|].
Qed.

(** X13, file names: in the archive the slides at different positions get
    different file names, so no image replaces another. *)
Theorem exportFileName_distinct (i j : nat) (slide slide' : SlideData) :
  i <> j -> exportFileName i slide <> exportFileName j slide'.
Proof.
  intros Hij Heq. unfold exportFileName in Heq.
  change (ofString "_") with [95%N] in Heq. cbn [app] in Heq.
  apply cut_at_first in Heq as [Heq _].
  - apply padStart_decimal_inj in Heq. lia.
  - unfold padStart, decimal. rewrite zeros_digits. apply digits_without. lia.
  - unfold padStart, decimal. rewrite zeros_digits. apply digits_without. lia.
Qed.

Lemma exportFileName_distinct_witness :
  exportFileName 0 (coverSlide []) <> exportFileName 9 (coverSlide []).
Proof. apply (exportFileName_distinct 0 9). discriminate. Defined.

(** ** The editing handlers *)

Section Handlers.

Implicit Types (s : SlideData) (l : list SlideData) (st : AppState).

Lemma eqString_eq (a b : jsstring) : eqString a b = true <-> a = b.
Proof.
  revert b. induction a as [|x a IH]; intros [|y b]; simpl; try done.
  rewrite andb_true_iff, N.eqb_eq, IH. split; [by intros [-> ->]|].
  by intros [= -> ->].
Qed.

Lemma hasId_true id' s : hasId id' s = true <-> id s = Some id'.
Proof.
  unfold hasId. destruct (id s) as [x|]; [|done].
  rewrite eqString_eq. split; [by intros ->|by intros [= ->]].
Qed.

Lemma hasId_false id' s : hasId id' s = false <-> id s <> Some id'.
Proof.
  rewrite <- hasId_true. destruct (hasId id' s); split; try done.
Qed.

Lemma findIndex_Some (f : SlideData -> bool) l i :
  findIndex f l = Some i ->
  exists s, l !! i = Some s /\ f s = true.
Proof.
  revert i. induction l as [|s l IH]; intros i; simpl; [done|].
  destruct (f s) eqn:E.
  - intros [= <-]. by exists s.
  - destruct (findIndex f l) as [j|]; [|done]. intros [= <-].
    by apply IH.
Qed.

Lemma findIndex_None (f : SlideData -> bool) l :
  findIndex f l = None -> Forall (fun s => f s = false) l.
Proof.
  induction l as [|s l IH]; simpl; [constructor|].
  destruct (f s) eqn:E; [done|].
  destruct (findIndex f l); [done|]. by constructor; [|apply IH].
Qed.

Lemma findIndex_found (f : SlideData -> bool) l s :
  In s l -> f s = true -> is_Some (findIndex f l).
Proof.
  induction l as [|x l IH]; simpl; [done|].
  intros [->|Hin] Hs; [rewrite Hs; by eexists|].
  destruct (f x); [by eexists|].
  destruct (IH Hin Hs) as [i ->]. by eexists.
Qed.

(** Renumbering forgets an earlier renumbering. *)
Lemma reindexMap_again total k total' k' l :
  reindexMap total k (reindexMap total' k' l) = reindexMap total k l.
Proof.
  revert k k'. induction l as [|s l IH]; intros k k'; [done|].
  simpl. destruct (isCover s) eqn:E; simpl.
  - change (isCover (withTotalPages s total')) with (isCover s).
    rewrite E. by rewrite IH.
  - change (isCover (withPageNumbers s (k' + 1) total')) with (isCover s).
    rewrite E. by rewrite IH.
Qed.

Lemma reindexMap_count total k l :
  length (List.filter (fun s => negb (isCover s)) (reindexMap total k l))
  = length (List.filter (fun s => negb (isCover s)) l).
Proof.
  pose proof (reindexMap_numbers total k l) as H.
  apply (f_equal length) in H. by rewrite !length_map, length_seq in H.
Qed.

(** A filter that does not look at the numbers sees the same slides before
    and after a renumbering. *)
Lemma reindexMap_filter (p : SlideData -> bool) total k total' k' l :
  (forall s a, p (withTotalPages s a) = p s) ->
  (forall s a b, p (withPageNumbers s a b) = p s) ->
  reindexMap total k (List.filter p (reindexMap total' k' l))
  = reindexMap total k (List.filter p l)
  /\ length (List.filter (fun s => negb (isCover s))
               (List.filter p (reindexMap total' k' l)))
     = length (List.filter (fun s => negb (isCover s)) (List.filter p l)).
Proof.
  intros Hp1 Hp2. revert k k'.
  induction l as [|s l IH]; intros k k'; [done|].
  simpl. destruct (isCover s) eqn:E; simpl.
  - rewrite Hp1. destruct (p s); [|apply IH]. simpl.
    change (isCover (withTotalPages s total')) with (isCover s).
    rewrite E. simpl. destruct (IH k k') as [-> ->].
    split; [|done]. by f_equal.
  - rewrite Hp2. destruct (p s); [|apply IH]. simpl.
    change (isCover (withPageNumbers s (k' + 1) total')) with (isCover s).
    rewrite E. simpl. destruct (IH (k + 1) (k' + 1)) as [-> ->].
    split; [|done]. by f_equal.
Qed.

Lemma reindexSlides_filter (p : SlideData -> bool) l :
  (forall s a, p (withTotalPages s a) = p s) ->
  (forall s a b, p (withPageNumbers s a b) = p s) ->
  reindexSlides (List.filter p (reindexSlides l))
  = reindexSlides (List.filter p l).
Proof.
  intros Hp1 Hp2. unfold reindexSlides.
  destruct (reindexMap_filter p
              (Z.of_nat (length (List.filter (fun s => negb (isCover s))
                                   (List.filter p l))))
              0
              (Z.of_nat (length (List.filter (fun s => negb (isCover s)) l)))
              0 l Hp1 Hp2) as [H1 H2].
  by rewrite H2, H1.
Qed.

Lemma reindexSlides_numbers l :
  map pageNumber
    (List.filter (fun s => negb (isCover s)) (reindexSlides l))
  = map (fun k => Some (Z.of_nat k))
      (seq 1 (length (List.filter (fun s => negb (isCover s)) l))).
Proof.
  unfold reindexSlides. rewrite reindexMap_numbers.
  apply map_ext. intros k. f_equal; lia.
Qed.

Lemma reindexMap_ids total k l :
  map id (reindexMap total k l) = map id l.
Proof.
  revert k. induction l as [|s l IH]; intros k; [done|].
  simpl. destruct (isCover s); simpl; by rewrite IH.
Qed.

Lemma filter_all (p : SlideData -> bool) l :
  Forall (fun s => p s = true) l -> List.filter p l = l.
Proof.
  induction 1 as [|s l Hs _ IH]; simpl; [done|]. by rewrite Hs, IH.
Qed.

Lemma filter_spliceIn (p : SlideData -> bool) (k : nat) (x : SlideData) l :
  p x = false -> List.filter p (spliceIn k x l) = List.filter p l.
Proof.
  intros Hx. unfold spliceIn. rewrite List.filter_app. simpl. rewrite Hx.
  by rewrite <- List.filter_app, take_drop.
Qed.

End Handlers.

(** X14, renumbering twice: [reindexSlides] applied to its own result
    changes nothing. *)
Theorem reindexSlides_idempotent (currentSlides : list SlideData) :
  reindexSlides (reindexSlides currentSlides) = reindexSlides currentSlides.
Proof.
  unfold reindexSlides. by rewrite reindexMap_count, reindexMap_again.
Qed.

Section AppHandlers.

Implicit Types (s : SlideData) (l : list SlideData) (st : AppState).

Lemma handleDeleteSlide_slides id' st i :
  findIndex (hasId id') (slides st) = Some i ->
  slides (handleDeleteSlide id' st)
  = reindexSlides (List.filter (fun s => negb (hasId id' s)) (slides st)).
Proof.
  intros H. unfold handleDeleteSlide. rewrite H.
  destruct (isActive st id'); [|done].
  destruct (at_ _ _); [done|].
  by destruct (reindexSlides _).
Qed.

Lemma reindexSlides_length l : length (reindexSlides l) = length l.
Proof. apply reindexMap_length. Qed.

Lemma reindexSlides_ids l : map id (reindexSlides l) = map id l.
Proof. apply reindexMap_ids. Qed.

Lemma filter_shorter (p : SlideData -> bool) l s :
  In s l -> p s = false -> (length (List.filter p l) < length l)%nat.
Proof.
  induction l as [|x l IH]; simpl; [done|].
  pose proof (List.filter_length_le p l) as Hle.
  intros [->|Hin] Hs.
  - rewrite Hs. lia.
  - specialize (IH Hin Hs). destruct (p x); simpl; lia.
Qed.

Lemma no_id_after_filter id' l :
  Forall (fun s => id s <> Some id')
    (reindexSlides (List.filter (fun s => negb (hasId id' s)) l)).
Proof.
  assert (H : Forall (fun o => o <> Some id')
                (map id (reindexSlides
                           (List.filter (fun s => negb (hasId id' s)) l)))).
  { rewrite reindexSlides_ids. apply List.Forall_forall. intros o Ho.
    apply in_map_iff in Ho as (s & <- & Hs).
    apply filter_In in Hs as [_ Hs]. apply negb_true_iff in Hs.
    by apply hasId_false. }
  by rewrite Forall_map in H.
Qed.

(** A slide that is no cover is numbered where it stands. *)
Lemma reindexMap_lookup total k l i s :
  l !! i = Some s -> isCover s = false ->
  exists k', reindexMap total k l !! i = Some (withPageNumbers s k' total).
Proof.
  revert k i. induction l as [|x l IH]; intros k i; [done|].
  destruct i as [|i]; simpl.
  - intros [= ->] ->. by eexists.
  - intros Hs Hc. destruct (isCover x); simpl; by apply IH.
Qed.

Lemma spliceIn_lookup {A} (k : nat) (x : A) (l : list A) :
  (k <= length l)%nat -> spliceIn k x l !! k = Some x.
Proof.
  intros Hk. unfold spliceIn.
  rewrite lookup_app_r by (rewrite length_take; lia).
  rewrite length_take. by replace (k - k `min` length l)%nat with 0%nat by lia.
Qed.

Lemma spliceIn_length {A} (k : nat) (x : A) (l : list A) :
  length (spliceIn k x l) = S (length l).
Proof.
  unfold spliceIn. rewrite length_app. simpl.
  rewrite length_take, length_drop. lia.
Qed.

Lemma spliceIn_map {A B} (f : A -> B) (k : nat) (x : A) (l : list A) :
  map f (spliceIn k x l) = spliceIn k (f x) (map f l).
Proof.
  unfold spliceIn. rewrite map_app. simpl.
  by rewrite firstn_map, skipn_map.
Qed.

End AppHandlers.

(** X15, deleting a slide: afterwards no slide has the identifier.  Either
    no slide had it and nothing changed; or the slides that had it are
    gone, the slides that are no cover are numbered [1 .. M] anew, and the
    active slide, if it was the deleted one, is now a slide of the list, or
    none when the list is empty. *)
Theorem delete_slide (id' : jsstring) (st : AppState) :
  Forall (fun s => id s <> Some id') (slides (handleDeleteSlide id' st))
  /\ ((handleDeleteSlide id' st = st
       /\ Forall (fun s => id s <> Some id') (slides st))
      \/ (slides (handleDeleteSlide id' st)
          = reindexSlides
              (List.filter (fun s => negb (hasId id' s)) (slides st))
          /\ (length (slides (handleDeleteSlide id' st))
              < length (slides st))%nat
          /\ map pageNumber
               (List.filter (fun s => negb (isCover s))
                  (slides (handleDeleteSlide id' st)))
             = map (fun k => Some (Z.of_nat k))
                 (seq 1 (length (List.filter (fun s => negb (isCover s))
                                   (slides (handleDeleteSlide id' st)))))
          /\ (if isActive st id'
              then (slides (handleDeleteSlide id' st) = []
                    /\ activeSlideId (handleDeleteSlide id' st) = None)
                   \/ exists s, In s (slides (handleDeleteSlide id' st))
                                /\ activeSlideId (handleDeleteSlide id' st)
                                   = id s
              else activeSlideId (handleDeleteSlide id' st)
                   = activeSlideId st))).
Proof.
  destruct (findIndex (hasId id') (slides st)) as [i|] eqn:Hfind.
  - pose proof (handleDeleteSlide_slides id' st i Hfind) as Hslides.
    split; [rewrite Hslides; apply no_id_after_filter|]. right.
    split; [done|]. rewrite Hslides. repeat split.
    + rewrite reindexSlides_length.
      destruct (findIndex_Some _ _ _ Hfind) as (s & Hs & Hid).
      apply (filter_shorter _ _ s); [|by rewrite Hid].
      apply list_elem_of_In. by apply list_elem_of_lookup_2 in Hs.
    + unfold reindexSlides at 2. rewrite reindexMap_count.
      apply reindexSlides_numbers.
    + unfold handleDeleteSlide. rewrite Hfind.
      destruct (isActive st id'); [|done].
      set (reindexed := reindexSlides _).
      destruct (at_ reindexed _) as [next|] eqn:Hat; simpl.
      * right. exists next. split; [|done]. unfold at_ in Hat.
        destruct (_ <? 0); [done|].
        apply list_elem_of_In. by apply list_elem_of_lookup_2 in Hat.
      * destruct reindexed as [|first rest]; simpl; [by left|].
        right. exists first. split; [by left|done].
  - assert (Hno : Forall (fun s => id s <> Some id') (slides st)).
    { eapply Forall_impl; [exact (findIndex_None _ _ Hfind)|].
      intros s Hs. by apply hasId_false. }
    unfold handleDeleteSlide. rewrite Hfind. split; [done|]. by left.
Qed.

(** X16, adding a slide: after a slide with the identifier [afterId], at
    index [index], the list is one longer; the other slides keep their
    order and the new slide stands right behind that slide, numbered, and
    is the active one; the slides that are no cover are numbered
    [1 .. M + 1]. *)
Theorem add_slide (now : N) (afterId : jsstring) (st : AppState)
    (index : nat) :
  findIndex (hasId afterId) (slides st) = Some index ->
  length (slides (handleAddSlide now afterId st)) = S (length (slides st))
  /\ map id (slides (handleAddSlide now afterId st))
     = take (index + 1) (map id (slides st))
         ++ Some (ofString "manual-slide-" ++ decimal now)
         :: drop (index + 1) (map id (slides st))
  /\ (exists k n,
        slides (handleAddSlide now afterId st) !! (index + 1)%nat
        = Some (withPageNumbers
                  (manualSlide now (slides st !! index ≫= category)) k n))
  /\ activeSlideId (handleAddSlide now afterId st)
     = Some (ofString "manual-slide-" ++ decimal now)
  /\ map pageNumber
       (List.filter (fun s => negb (isCover s))
          (slides (handleAddSlide now afterId st)))
     = map (fun k => Some (Z.of_nat k))
         (seq 1 (S (length (List.filter (fun s => negb (isCover s))
                              (slides st))))).
Proof.
  intros Hfind. unfold handleAddSlide. rewrite Hfind. simpl.
  destruct (findIndex_Some _ _ _ Hfind) as (s0 & Hs0 & _).
  apply lookup_lt_Some in Hs0.
  set (newSlide := manualSlide now (slides st !! index ≫= category)).
  repeat split.
  - by rewrite reindexSlides_length, spliceIn_length.
  - by rewrite reindexSlides_ids, spliceIn_map.
  - destruct (reindexMap_lookup
                (Z.of_nat (length (List.filter (fun s => negb (isCover s))
                                     (spliceIn (index + 1) newSlide (slides st)))))
                0 (spliceIn (index + 1) newSlide (slides st))
                (index + 1) newSlide) as [k Hk]; [|done|by eauto].
    apply spliceIn_lookup. lia.
  - assert (Hc : length (List.filter (fun s => negb (isCover s))
                           (spliceIn (index + 1) newSlide (slides st)))
                  = S (length (List.filter (fun s => negb (isCover s))
                                 (slides st)))).
    { unfold spliceIn. rewrite List.filter_app, length_app. simpl.
      rewrite <- (take_drop (index + 1) (slides st)) at 3.
      rewrite List.filter_app, length_app. lia. }
    by rewrite reindexSlides_numbers, Hc.
Qed.

Lemma add_slide_witness :
  length (slides (handleAddSlide 7 (ofString "c")
                    (mkApp sampleDeck (Some (ofString "a")))))
  = 4%nat
  /\ map id (slides (handleAddSlide 7 (ofString "c")
                       (mkApp sampleDeck (Some (ofString "a")))))
     = [Some (ofString "c"); Some (ofString "manual-slide-7");
        Some (ofString "a"); Some (ofString "b")]
  /\ (exists k n,
        slides (handleAddSlide 7 (ofString "c")
                  (mkApp sampleDeck (Some (ofString "a")))) !! 1%nat
        = Some (withPageNumbers
                  (manualSlide 7 (Some (ofString "Knowledge"))) k n))
  /\ activeSlideId (handleAddSlide 7 (ofString "c")
                      (mkApp sampleDeck (Some (ofString "a"))))
     = Some (ofString "manual-slide-7")
  /\ map pageNumber
       (List.filter (fun s => negb (isCover s))
          (slides (handleAddSlide 7 (ofString "c")
                     (mkApp sampleDeck (Some (ofString "a"))))))
     = [Some 1; Some 2; Some 3].
Proof.
  apply (add_slide 7 (ofString "c") (mkApp sampleDeck (Some (ofString "a")))
           0).
  reflexivity.
Defined.

(** X17, adding and deleting again: deleting the slide just added, its
    identifier being new to the list, gives the list back, renumbered. *)
Theorem add_then_delete (now : N) (afterId : jsstring) (st : AppState)
    (index : nat) :
  findIndex (hasId afterId) (slides st) = Some index ->
  Forall (fun s => id s <> Some (ofString "manual-slide-" ++ decimal now))
    (slides st) ->
  slides (handleDeleteSlide (ofString "manual-slide-" ++ decimal now)
            (handleAddSlide now afterId st))
  = reindexSlides (slides st).
Proof.
  intros Hfind Hfresh. set (newId := ofString "manual-slide-" ++ decimal now).
  unfold handleAddSlide. rewrite Hfind.
  set (newSlide := manualSlide now (slides st !! index ≫= category)).
  set (added := mkApp _ _).
  assert (Hnew : hasId newId newSlide = true) by (by apply hasId_true).
  assert (Hin : exists s, In s (slides added) /\ hasId newId s = true).
  { destruct (findIndex_Some _ _ _ Hfind) as (s0 & Hs0 & _).
    apply lookup_lt_Some in Hs0.
    assert (Hid : In (Some newId) (map id (slides added))).
    { unfold added. simpl. rewrite reindexSlides_ids, spliceIn_map.
      apply list_elem_of_In. apply (list_elem_of_lookup_2 _ (index + 1)%nat).
      apply spliceIn_lookup. rewrite length_map. lia. }
    apply in_map_iff in Hid as (s & Hs & Hin). exists s. split; [done|].
    by apply hasId_true. }
  destruct Hin as (s & Hin & Hs).
  destruct (findIndex_found _ _ _ Hin Hs) as [i Hi].
  rewrite (handleDeleteSlide_slides _ _ _ Hi). unfold added. simpl.
  rewrite reindexSlides_filter by done.
  rewrite filter_spliceIn by (by rewrite Hnew).
  rewrite filter_all; [done|].
  eapply Forall_impl; [exact Hfresh|]. intros x Hx.
  apply negb_true_iff. by apply hasId_false.
Qed.

Lemma add_then_delete_witness :
  slides (handleDeleteSlide (ofString "manual-slide-" ++ decimal 7)
            (handleAddSlide 7 (ofString "a")
               (mkApp sampleDeck (Some (ofString "a")))))
  = reindexSlides sampleDeck.
Proof.
  apply (add_then_delete 7 (ofString "a")
           (mkApp sampleDeck (Some (ofString "a"))) 1).
  - reflexivity.
  - repeat constructor; discriminate.
Defined.

(** ** The handlers of the editor *)

Section EditorHandlers.

(** [slice(0, k)] and [slice(k)] cut an array in two, for every [k]. *)
Lemma sliceOf_split {A} (l : list A) (k : Z) :
  sliceOf l 0 k ++ sliceOfFrom l k = l.
Proof.
  unfold sliceOfFrom, sliceOf.
  set (len := Z.of_nat (length l)).
  assert (H0 : relIndex len 0 = 0) by (unfold relIndex; simpl; lia).
  assert (Hlen : relIndex len len = len).
  { unfold relIndex. destruct (Z.ltb_spec len 0); lia. }
  assert (Hk : 0 <= relIndex len k <= len).
  { unfold relIndex. destruct (Z.ltb_spec k 0); lia. }
  rewrite H0, Hlen. change (Z.to_nat 0) with 0%nat. rewrite drop_0, Z.sub_0_r.
  rewrite (take_ge (drop _ _)) by (rewrite length_drop; lia).
  apply take_drop.
Qed.

(** Inside the array both parts of the cut are non-empty. *)
Lemma sliceOf_parts {A} (l : list A) (index : Z) :
  0 <= index < Z.of_nat (length l) - 1 ->
  sliceOf l 0 (index + 1) <> [] /\ sliceOfFrom l (index + 1) <> [].
Proof.
  intros Hi. unfold sliceOfFrom, sliceOf.
  set (len := Z.of_nat (length l)) in *.
  assert (H0 : relIndex len 0 = 0) by (unfold relIndex; simpl; lia).
  assert (Hlen : relIndex len len = len).
  { unfold relIndex. destruct (Z.ltb_spec len 0); lia. }
  assert (Hk : relIndex len (index + 1) = index + 1).
  { unfold relIndex. destruct (Z.ltb_spec (index + 1) 0); lia. }
  rewrite H0, Hlen, Hk. change (Z.to_nat 0) with 0%nat. rewrite drop_0.
  split; intros H; apply (f_equal length) in H;
    rewrite length_take, ?length_drop in H; simpl in H; lia.
Qed.

Lemma lookup_map {A B} (f : A -> B) (l : list A) (i : nat) :
  map f l !! i = f <$> l !! i.
Proof.
  revert i. induction l as [|x l IH]; intros [|i]; simpl; done.
Qed.

Lemma map_spliceIn_insert {B} (f : SlideData -> B) (i : nat)
    (upd new : SlideData) (l : list SlideData) :
  (i < length l)%nat ->
  map f (spliceIn (i + 1) new (<[i := upd]> l))
  = take i (map f l) ++ f upd :: f new :: drop (S i) (map f l).
Proof.
  intros Hi. unfold spliceIn.
  replace (i + 1)%nat with (S i) by lia.
  rewrite (take_S_r _ i upd) by (by apply list_lookup_insert_eq).
  rewrite take_insert_ge, drop_insert_lt by lia.
  rewrite map_app, map_app. simpl.
  by rewrite <- app_assoc, firstn_map, skipn_map.
Qed.

Lemma filterIndex_shift {A} (index : Z) (k : nat) (l : list A) :
  map snd
    (List.filter (fun ix => negb (Z.of_nat (fst ix) =? index))
       (imap (fun i x => ((k + i)%nat, x)) l))
  = if (Z.of_nat k <=? index) && (index <? Z.of_nat (k + length l))
    then take (Z.to_nat index - k) l ++ drop (S (Z.to_nat index - k)) l
    else l.
Proof.
  revert k. induction l as [|x l IH]; intros k.
  - simpl. destruct (_ && _); [by rewrite take_nil|done].
  - rewrite imap_cons. cbn [List.filter fst].
    rewrite (imap_ext _ (fun i y => ((S k + i)%nat, y)))
      by (intros i y _; simpl; f_equal; lia).
    rewrite Nat.add_0_r.
    destruct (Z.eqb_spec (Z.of_nat k) index) as [<-|Hne]; cbn [negb map snd].
    + rewrite IH.
      destruct (Z.leb_spec (Z.of_nat (S k)) (Z.of_nat k)); [lia|].
      cbn [andb].
      destruct (Z.leb_spec (Z.of_nat k) (Z.of_nat k)); [|lia].
      destruct (Z.ltb_spec (Z.of_nat k) (Z.of_nat (k + length (x :: l))));
        [|simpl in *; lia].
      cbn [andb]. rewrite Nat2Z.id, Nat.sub_diag. done.
    + rewrite IH.
      destruct (Z.leb_spec (Z.of_nat (S k)) index);
        destruct (Z.leb_spec (Z.of_nat k) index); try lia; cbn [andb];
        [|done].
      replace (k + length (x :: l))%nat with (S k + length l)%nat
        by (simpl; lia).
      destruct (Z.ltb_spec index (Z.of_nat (S k + length l))); [|done].
      replace (Z.to_nat index - k)%nat with (S (Z.to_nat index - S k)) by lia.
      done.
Qed.

End EditorHandlers.

(** X18, splitting a slide: no paragraph is lost or moved, the contents of
    all the slides, one after the other, are as before.  Either nothing
    changed; or the list is one longer, the new slide is the active one,
    and the page numbers are those of before with none for the new slide:
    the split does not renumber. *)
Theorem split_slide (now : N) (id' : jsstring) (index : Z) (st : AppState) :
  concat (map content (slides (handleSplitSlide now id' index st)))
  = concat (map content (slides st))
  /\ (handleSplitSlide now id' index st = st
      \/ exists slideIndex,
           findIndex (hasId id') (slides st) = Some slideIndex
           /\ length (slides (handleSplitSlide now id' index st))
              = S (length (slides st))
           /\ activeSlideId (handleSplitSlide now id' index st)
              = Some (ofString "split-slide-" ++ decimal now)
           /\ map pageNumber (slides (handleSplitSlide now id' index st))
              = take (S slideIndex) (map pageNumber (slides st))
                  ++ None :: drop (S slideIndex) (map pageNumber (slides st))).
Proof.
  unfold handleSplitSlide.
  destruct (findIndex (hasId id') (slides st)) as [i|] eqn:Hfind;
    [|split; [done|by left]].
  destruct (slides st !! i) as [cur|] eqn:Hcur; [|split; [done|by left]].
  destruct (_ <=? index); [split; [done|by left]|].
  pose proof (lookup_lt_Some _ _ _ Hcur) as Hi.
  cbn [slides activeSlideId]. split.
  - rewrite map_spliceIn_insert by done. cbn [content withContent splitSlide].
    rewrite <- (take_drop_middle _ _ _ Hcur) at 3.
    rewrite map_app, !concat_app. simpl.
    rewrite firstn_map, skipn_map.
    rewrite (app_assoc (sliceOf _ _ _)), sliceOf_split. done.
  - right. exists i. repeat split.
    + rewrite spliceIn_length. by rewrite length_insert.
    + rewrite map_spliceIn_insert by done.
      cbn [pageNumber withContent splitSlide].
      rewrite (take_S_r _ i (pageNumber cur)), <- app_assoc; [done|].
      by rewrite lookup_map, Hcur.
Qed.

(** X19, the two slides of a split: for an index inside the content and
    before its last paragraph, the slide keeps the paragraphs up to the
    index, the new slide right behind it takes the others, both have a
    paragraph at least, and the new slide is a content slide without page
    number. *)
Theorem split_slide_parts (now : N) (id' : jsstring) (index : Z)
    (st : AppState) (slideIndex : nat) (currentSlide : SlideData) :
  findIndex (hasId id') (slides st) = Some slideIndex ->
  slides st !! slideIndex = Some currentSlide ->
  0 <= index < Z.of_nat (length (content currentSlide)) - 1 ->
  exists keep move,
    keep <> [] /\ move <> [] /\ keep ++ move = content currentSlide
    /\ Z.of_nat (length keep) = index + 1
    /\ slides (handleSplitSlide now id' index st) !! slideIndex
       = Some (withContent currentSlide keep)
    /\ slides (handleSplitSlide now id' index st) !! (slideIndex + 1)%nat
       = Some (splitSlide now currentSlide move)
    /\ type (splitSlide now currentSlide move) = ty_content
    /\ pageNumber (splitSlide now currentSlide move) = None.
Proof.
  intros Hfind Hcur Hi.
  exists (sliceOf (content currentSlide) 0 (index + 1)),
         (sliceOfFrom (content currentSlide) (index + 1)).
  destruct (sliceOf_parts (content currentSlide) index Hi) as [Hk Hm].
  pose proof (sliceOf_split (content currentSlide) (index + 1)) as Hcat.
  pose proof (lookup_lt_Some _ _ _ Hcur) as Hlt.
  unfold handleSplitSlide. rewrite Hfind, Hcur.
  destruct (Z.leb_spec (Z.of_nat (length (content currentSlide)) - 1) index);
    [lia|].
  cbn [slides]. repeat split; try done.
  - unfold sliceOf. unfold relIndex.
    destruct (Z.ltb_spec (index + 1) 0); [lia|]. simpl.
    rewrite length_take, length_drop. lia.
  - unfold spliceIn. rewrite lookup_app_l by (rewrite length_take, length_insert; lia).
    rewrite lookup_take_lt by lia. by apply list_lookup_insert_eq.
  - apply spliceIn_lookup. rewrite length_insert. lia.
Qed.

Lemma split_slide_parts_witness :
  exists keep move,
    keep <> [] /\ move <> []
    /\ keep ++ move = [ofString "abc"; ofString "def"; ofString "ghi"]
    /\ Z.of_nat (length keep) = 0 + 1
    /\ slides (handleSplitSlide 7 (ofString "a") 0 (mkApp sampleDeck None))
         !! 1%nat
       = Some (withContent
                 (withId (contentSlide
                            [ofString "abc"; ofString "def"; ofString "ghi"])
                    (ofString "a"))
                 keep)
    /\ slides (handleSplitSlide 7 (ofString "a") 0 (mkApp sampleDeck None))
         !! (1 + 1)%nat
       = Some (splitSlide 7
                 (withId (contentSlide
                            [ofString "abc"; ofString "def"; ofString "ghi"])
                    (ofString "a"))
                 move)
    /\ type (splitSlide 7
               (withId (contentSlide
                          [ofString "abc"; ofString "def"; ofString "ghi"])
                  (ofString "a"))
               move) = ty_content
    /\ pageNumber (splitSlide 7
                     (withId (contentSlide
                                [ofString "abc"; ofString "def"; ofString "ghi"])
                        (ofString "a"))
                     move) = None.
Proof.
  apply (split_slide_parts 7 (ofString "a") 0 (mkApp sampleDeck None) 1
           (withId (contentSlide
                      [ofString "abc"; ofString "def"; ofString "ghi"])
              (ofString "a"))).
  - reflexivity.
  - reflexivity.
  - simpl. lia.
Defined.

(** X20, deleting a paragraph: the slides with another identifier are left
    as they are; a slide with the identifier loses the paragraph at the
    index, the others keeping their order, and loses nothing when the index
    is off its content. *)
Theorem delete_paragraph (id' : jsstring) (index : Z) (prev : list SlideData) :
  Forall2 (fun s s' =>
             if hasId id' s
             then s' = withContent s
                         (if (0 <=? index)
                             && (index <? Z.of_nat (length (content s)))
                          then take (Z.to_nat index) (content s)
                                 ++ drop (S (Z.to_nat index)) (content s)
                          else content s)
             else s' = s)
    prev (handleDeleteParagraph id' index prev).
Proof.
  unfold handleDeleteParagraph.
  induction prev as [|s prev IH]; simpl; constructor; [|done].
  destruct (hasId id' s); simpl; [|done]. f_equal. unfold filterIndex.
  rewrite (imap_ext _ (fun i x => ((0 + i)%nat, x))) by done.
  rewrite filterIndex_shift. simpl. by rewrite Nat.sub_0_r.
Qed.

(** ** Tags and lines *)

Section Splitting.

Variable isSep : N -> bool.

Lemma dropWhile_id (f : N -> bool) (t : jsstring) :
  Forall (fun c => f c = false) t -> dropWhile f t = t.
Proof. destruct 1 as [|c t Hc _]; simpl; [done|]. by rewrite Hc. Qed.

Lemma filter_true {A} (p : A -> bool) (l : list A) :
  Forall (fun x => p x = true) l -> List.filter p l = l.
Proof.
  induction 1 as [|x l Hx _ IH]; simpl; [done|]. by rewrite Hx, IH.
Qed.

Lemma splitRuns_shape (inRun : bool) (piece value : jsstring) :
  Forall (fun c => isSep c = false) piece ->
  Forall (Forall (fun c => isSep c = false)) (splitRuns isSep inRun piece value).
Proof.
  revert inRun piece. induction value as [|c value IH]; intros inRun piece Hp.
  - by constructor.
  - simpl. destruct (isSep c) eqn:Hc.
    + destruct inRun; [by apply IH|]. constructor; [done|]. by apply IH.
    + apply IH. apply Forall_app. split; [done|]. by constructor.
Qed.

(** A run of characters that are no separators is read into the piece. *)
Lemma splitRuns_word (piece t rest : jsstring) :
  Forall (fun c => isSep c = false) t ->
  splitRuns isSep false piece (t ++ rest)
  = splitRuns isSep false (piece ++ t) rest.
Proof.
  intros Ht. revert piece. induction Ht as [|c t Hc _ IH]; intros piece.
  - by rewrite app_nil_r.
  - simpl. rewrite Hc, IH. by rewrite <- app_assoc.
Qed.

Lemma splitRuns_first_word (inRun : bool) (t rest : jsstring) :
  t <> [] -> Forall (fun c => isSep c = false) t ->
  splitRuns isSep inRun [] (t ++ rest) = splitRuns isSep false t rest.
Proof.
  intros Hne Ht. destruct Ht as [|c t Hc Ht]; [done|].
  simpl. rewrite Hc. by rewrite splitRuns_word.
Qed.

End Splitting.

Section Tags.

Lemma trim_without_separator (t : jsstring) :
  Forall (fun c => isTagSeparator c = false) t -> trim t = t.
Proof.
  intros Ht.
  assert (Hws : Forall (fun c => isWhiteSpace c = false) t).
  { eapply Forall_impl; [exact Ht|]. intros c Hc. unfold isTagSeparator in Hc.
    by apply orb_false_iff in Hc as [_ Hc]. }
  unfold trim. rewrite (dropWhile_id _ t Hws).
  rewrite dropWhile_id; [by rewrite rev_involutive|].
  apply List.Forall_forall. intros c Hc. apply in_rev in Hc.
  rewrite List.Forall_forall in Hws. by apply Hws.
Qed.

Lemma nonBlank_tag (t : jsstring) :
  t <> [] -> Forall (fun c => isTagSeparator c = false) t -> nonBlank t = true.
Proof.
  intros Hne Ht. unfold nonBlank. rewrite trim_without_separator by done.
  by destruct t.
Qed.

Lemma nonBlank_nonempty (t : jsstring) : nonBlank t = true -> t <> [].
Proof. by intros H ->. Qed.

Lemma parseTags_tags (value : jsstring) :
  Forall (fun t => t <> [] /\ Forall (fun c => isTagSeparator c = false) t)
    (parseTags value).
Proof.
  unfold parseTags.
  pose proof (splitRuns_shape isTagSeparator false [] value ltac:(constructor))
    as Hall.
  apply List.Forall_forall. intros t Ht. apply filter_In in Ht as [Hin Hnb].
  split; [by apply nonBlank_nonempty|].
  rewrite List.Forall_forall in Hall. by apply Hall.
Qed.

Lemma splitRuns_join (tags : list jsstring) (inRun : bool) :
  tags <> [] ->
  Forall (fun t => t <> [] /\ Forall (fun c => isTagSeparator c = false) t)
    tags ->
  splitRuns isTagSeparator inRun [] (join (ofString ", ") tags) = tags.
Proof.
  intros Hne Hall. revert inRun.
  induction Hall as [|t tags [Ht1 Ht2] Hall IH]; intros inRun; [done|].
  destruct tags as [|t2 tags].
  - simpl. rewrite <- (app_nil_r t) at 1.
    rewrite splitRuns_first_word by done. done.
  - change (join (ofString ", ") (t :: t2 :: tags))
      with (t ++ [44%N; 32%N] ++ join (ofString ", ") (t2 :: tags)).
    rewrite splitRuns_first_word by done. cbn [app splitRuns].
    change (isTagSeparator 44) with true. change (isTagSeparator 32) with true.
    cbv iota. f_equal. by apply IH.
Qed.

Lemma parseTags_join (tags : list jsstring) :
  Forall (fun t => t <> [] /\ Forall (fun c => isTagSeparator c = false) t)
    tags ->
  parseTags (join (ofString ", ") tags) = tags.
Proof.
  intros Hall. unfold parseTags. destruct tags as [|t tags]; [done|].
  rewrite splitRuns_join by done.
  apply filter_true. eapply Forall_impl; [exact Hall|].
  intros x [Hx1 Hx2]. by apply nonBlank_tag.
Qed.

End Tags.

Section Lines.

Lemma splitAtNewline_line (piece l rest : jsstring) :
  ~ In NEWLINE l ->
  splitAtNewline piece (l ++ rest) = splitAtNewline (piece ++ l) rest.
Proof.
  revert piece. induction l as [|c l IH]; intros piece Hl.
  - by rewrite app_nil_r.
  - simpl. destruct (N.eqb_spec c NEWLINE) as [->|Hc].
    + exfalso. apply Hl. by left.
    + rewrite IH by (intros H; apply Hl; by right). by rewrite <- app_assoc.
Qed.

Lemma splitAtNewline_join (ls : list jsstring) :
  ls <> [] -> Forall (fun l => ~ In NEWLINE l) ls ->
  splitAtNewline [] (join [NEWLINE] ls) = ls.
Proof.
  intros Hne Hall. induction Hall as [|l ls Hl Hall IH]; [done|].
  destruct ls as [|l2 ls].
  - simpl. rewrite <- (app_nil_r l) at 1. by rewrite splitAtNewline_line.
  - change (join [NEWLINE] (l :: l2 :: ls))
      with (l ++ [NEWLINE] ++ join [NEWLINE] (l2 :: ls)).
    rewrite splitAtNewline_line by done. cbn [app splitAtNewline].
    rewrite N.eqb_refl. f_equal. by apply IH.
Qed.

End Lines.

(** X21, well-formed tags: whatever is typed into the tag field, no tag
    made of it is empty and none holds a comma, a fullwidth comma or white
    space. *)
Theorem tags_well_formed (id' value : jsstring) (prev : list SlideData) :
  Forall (fun t => t <> [] /\ Forall (fun c => isTagSeparator c = false) t)
    (parseTags value)
  /\ Forall2 (fun s s' =>
                if hasId id' s then s' = withTags s (parseTags value)
                else s' = s)
       prev (handleTagsChange id' value prev).
Proof.
  split; [apply parseTags_tags|]. unfold handleTagsChange.
  induction prev as [|s prev IH]; simpl; constructor; [|done].
  by destruct (hasId id' s).
Qed.

(** X22, the tag field: tags that are not empty and hold no separator,
    shown in the field joined by a comma and a space and read back, are the
    same tags. *)
Theorem tags_round_trip (tags : list jsstring) :
  Forall (fun t => t <> [] /\ Forall (fun c => isTagSeparator c = false) t)
    tags ->
  parseTags (join (ofString ", ") tags) = tags.
Proof. apply parseTags_join. Qed.

Lemma tags_round_trip_witness :
  parseTags (join (ofString ", ") [ofString "ab"; [24178; 36135]%N])
  = [ofString "ab"; [24178; 36135]%N].
Proof.
  apply (tags_round_trip [ofString "ab"; [24178; 36135]%N]).
  repeat constructor; discriminate.
Defined.

(** X23, the tag field is stable: after [handleTagsChange], what the field
    shows for a slide with the identifier reads back as the tags the slide
    got. *)
Theorem tags_field_stable (id' value : jsstring) (prev : list SlideData) :
  Forall (fun s' =>
            hasId id' s' = false
            \/ (tags s' = Some (parseTags value)
                /\ parseTags (tagsField s') = parseTags value))
    (handleTagsChange id' value prev).
Proof.
  unfold handleTagsChange. apply List.Forall_forall. intros s' Hs'.
  apply in_map_iff in Hs' as (s & <- & _).
  destruct (hasId id' s) eqn:E; [|by left]. right. split; [done|].
  unfold tagsField. simpl. apply parseTags_join. apply parseTags_tags.
Qed.

(** X24, lines and paragraphs: of lines joined by newlines the server makes
    the lines that are not blank, each as it is. *)
Theorem rawParagraphs_of_lines (ls : list jsstring) :
  Forall (fun l => ~ In NEWLINE l) ls ->
  rawParagraphs (join [NEWLINE] ls) = List.filter nonBlank ls.
Proof.
  intros Hall. unfold rawParagraphs, splitNewlines.
  rewrite splitGo_lines by done.
  destruct ls as [|l ls]; [done|]. by rewrite splitAtNewline_join.
Qed.

Lemma rawParagraphs_of_lines_witness :
  rawParagraphs (join [NEWLINE] [ofString " a"; []; ofString "  "; ofString "b"])
  = List.filter nonBlank [ofString " a"; []; ofString "  "; ofString "b"].
Proof.
  apply (rawParagraphs_of_lines [ofString " a"; []; ofString "  "; ofString "b"]).
  repeat constructor; vm_compute; intuition discriminate.
Defined.

(** ** From the request to the slides *)

Section EndToEnd.

Lemma orString_nonempty (a : option jsstring) (b : jsstring) :
  b <> [] -> orString a b <> [].
Proof. by destruct a as [[|? ?]|]. Qed.

Lemma Forall_imap {A B} (Q : B -> Prop) (f : nat -> A -> B) (l : list A) :
  (forall i x, In x l -> Q (f i x)) -> Forall Q (imap f l).
Proof.
  revert f. induction l as [|x l IH]; intros f Hf; [constructor|].
  simpl. constructor; [apply Hf; by left|].
  apply IH. intros i y Hy. apply Hf. by right.
Qed.

(** The pages of the content slides of an answer are content slides with
    the category of the cover. *)
Lemma content_pages (cover : SlideData) (paragraphs : list jsstring) :
  Forall (fun s => type s = ty_content /\ category s = category cover)
    (concat (map (paginateSlide []) (map (serverContent cover) paragraphs))).
Proof.
  induction paragraphs as [|para ps IH]; [constructor|].
  simpl. apply Forall_app. split; [|done].
  eapply Forall_impl; [apply paginateSlide_inherits|].
  intros s' <-. done.
Qed.

End EndToEnd.

(** X25, from the request to the slides: a request without a text, or with
    an empty one, is answered with status 400 whatever the metadata call
    would do; for a text that is not empty, the request is answered with
    status 500 when the metadata call throws, and when it returns the array
    [reply] the server answers with slides, of which
    [generateSlidesFromText] makes a cover, whose content is one non-empty
    string, followed by content slides only, one for every non-blank line
    of the text or more; every slide has the same category, the one of the
    first object of [reply] where that is there and not empty, else
    ["Knowledge"]. *)
Theorem request_to_slides (clock : nat -> N) (text : jsstring)
    (title subtitle : option jsstring) (aiResultRaw : option (list Metadata))
    (reply : list Metadata) :
  text <> [] ->
  apiGenerate None title subtitle aiResultRaw = Status400
  /\ apiGenerate (Some []) title subtitle aiResultRaw = Status400
  /\ apiGenerate (Some text) title subtitle None = Status500
  /\ exists generatedData cover rest,
       apiGenerate (Some text) title subtitle (Some reply)
       = Answer generatedData
       /\ generateSlides clock generatedData = cover :: rest
       /\ type cover = ty_cover
       /\ (exists quote, content cover = [quote] /\ quote <> [])
       /\ Forall (fun s => type s = ty_content) rest
       /\ (length (rawParagraphs text) <= length rest)%nat
       /\ Forall (fun s =>
                   category s
                   = Some (match reply with
                           | metadata :: _ =>
                               match metaCategory metadata with
                               | Some (c :: t) => c :: t
                               | _ => ofString "Knowledge"
                               end
                           | [] => ofString "Knowledge"
                           end))
            (cover :: rest).
Proof.
  intros Hne. destruct text as [|c t]; [done|].
  split; [done|]. split; [done|]. split; [done|].
  set (text := c :: t). set (paragraphs := rawParagraphs text).
  set (metadata := default emptyMetadata (head reply)).
  set (cov := serverCover title subtitle metadata paragraphs).
  set (cat := orString (metaCategory metadata) (ofString "Knowledge")).
  assert (Hcat : cat <> []) by (by apply orString_nonempty).
  assert (Hrule : match reply with
                  | metadata :: _ =>
                      match metaCategory metadata with
                      | Some (c :: t) => c :: t
                      | _ => ofString "Knowledge"
                      end
                  | [] => ofString "Knowledge"
                  end = cat).
  { unfold cat, metadata. destruct reply as [|m reply]; [done|].
    simpl. by destruct (metaCategory m) as [[|? ?]|]. }
  rewrite Hrule.
  exists (cov :: map (serverContent cov) paragraphs).
  pose proof (content_pages cov paragraphs) as Hpages.
  pose proof (paginateAll_length (map (serverContent cov) paragraphs)) as Hlen.
  rewrite paginateAll_concat, length_map in Hlen.
  unfold generateSlides. rewrite paginateAll_concat.
  change (concat (map (paginateSlide []) (cov :: map (serverContent cov) paragraphs)))
    with (cov :: concat (map (paginateSlide [])
                           (map (serverContent cov) paragraphs))).
  set (pages := concat _) in *.
  unfold finishingPass. rewrite imap_cons.
  eexists _, _. split; [done|]. split; [reflexivity|].
  assert (Hcovcat : category cov = Some cat) by reflexivity.
  assert (Hcovty : isCover cov = true) by reflexivity.
  assert (Hcovtype : type cov = ty_cover) by reflexivity.
  assert (Hquote : exists quote, content cov = [quote] /\ quote <> []).
  { eexists. split; [reflexivity|]. by repeat apply orString_nonempty. }
  clearbody pages cov cat.
  assert (Hcc : orString (find isCover (cov :: pages) ≫= category)
                  (ofString "Knowledge System") = cat).
  { cbn [find]. rewrite Hcovty. simpl. rewrite Hcovcat. by destruct cat. }
  rewrite Hcc.
  repeat split.
  - done.
  - done.
  - apply Forall_imap. intros i s Hs. rewrite List.Forall_forall in Hpages.
    by destruct (Hpages s Hs).
  - by rewrite length_imap.
  - constructor; [simpl; rewrite Hcovcat; by destruct cat|].
    apply Forall_imap. intros i s Hs. rewrite List.Forall_forall in Hpages.
    destruct (Hpages s Hs) as [_ Hc]. simpl. rewrite Hc, Hcovcat.
    by destruct cat.
Qed.

Lemma request_to_slides_witness :
  apiGenerate None None None None = Status400
  /\ apiGenerate (Some []) None None None = Status400
  /\ apiGenerate (Some (ofString "abc")) None None None = Status500
  /\ exists generatedData cover rest,
       apiGenerate (Some (ofString "abc")) None None (Some [emptyMetadata])
       = Answer generatedData
       /\ generateSlides (fun _ => 7%N) generatedData = cover :: rest
       /\ type cover = ty_cover
       /\ (exists quote, content cover = [quote] /\ quote <> [])
       /\ Forall (fun s => type s = ty_content) rest
       /\ (length (rawParagraphs (ofString "abc")) <= length rest)%nat
       /\ Forall (fun s => category s = Some (ofString "Knowledge"))
            (cover :: rest).
Proof.
  apply (request_to_slides (fun _ => 7%N) (ofString "abc") None None None
           [emptyMetadata]).
  discriminate.
Defined.

(** X26, the cost of a fragment within the character budget: a string of
    at most [MAX_CHARS_PER_PARA] code units costs 5 lines at most, so three
    such fragments always fit on a page. *)
Theorem budget_fragment_cost (slide : SlideData) (p q r : jsstring) :
  (length p <= MAX_CHARS_PER_PARA)%nat ->
  (length q <= MAX_CHARS_PER_PARA)%nat ->
  (length r <= MAX_CHARS_PER_PARA)%nat ->
  0 <= getLineCost p <= 5
  /\ pagesOf slide [p; q; r] = [[p; q; r]].
Proof.
  assert (Hcost : forall s, (length s <= MAX_CHARS_PER_PARA)%nat ->
                            0 <= getLineCost s <= 5).
  { intros s Hs. split; [apply getLineCost_nonneg|].
    unfold getLineCost.
    destruct (startsWith [HASH; HASH; SPACE] s); [lia|].
    destruct (startsWith [HASH; HASH; HASH; SPACE] s); [lia|].
    destruct (trim s); [lia|].
    pose proof (ceilDiv_bounds (Z.of_nat (length s)) ltac:(lia)).
    unfold MAX_CHARS_PER_PARA, CHARS_PER_LINE in *. lia. }
  intros Hp Hq Hr. split; [by apply Hcost|].
  unfold pagesOf, paginate. rewrite paginate_loop_fits; [done|].
  pose proof (Hcost p Hp). pose proof (Hcost q Hq). pose proof (Hcost r Hr).
  simpl. unfold MAX_LINES_PER_PAGE. lia.
Qed.

Lemma budget_fragment_cost_witness :
  0 <= getLineCost (repeatChar 69 97) <= 5
  /\ pagesOf (contentSlide [])
       [repeatChar 69 97; repeatChar 69 98; repeatChar 69 99]
     = [[repeatChar 69 97; repeatChar 69 98; repeatChar 69 99]].
Proof.
  apply (budget_fragment_cost (contentSlide []) (repeatChar 69 97)
           (repeatChar 69 98) (repeatChar 69 99)); vm_compute; lia.
Defined.
